(** * generate.py: the OpenWebUI Docker Compose generator

    A shallow embedding of [generate.py] and the properties of its
    credential resolver, reference loader, prompt assembler, conversation
    loop and extraction step.

    Conventions of the model.
    - A Python [str] is a [list ascii]; a character of the model stands
      for a code point below 256.
    - [os.environ] and the file system are finite maps ([gmap]); a file
      is the text that reading it in text mode returns.  Opening a file
      for reading or writing never fails.  The process runs on a POSIX
      system whose file-system encoding is UTF-8: storing a value in the
      environment fails exactly where [putenv] refuses it.
    - The command line is given by what [argparse] makes of it: the
      parsed arguments, the help, or an error.  The standard error is
      not part of the world.
    - The terminal is a list of pending events (a typed line or Ctrl-C);
      the end of the list is end of input.
    - The language-model service is an arbitrary function from the call
      number and the request to a reply, an error or an interruption. *)

From Stdlib Require Import Ascii String ZArith Lia.
From stdpp Require Import base option list gmap strings.

Open Scope list_scope.

(** ** Python strings *)

Module Py.

Abbreviation str := (list ascii).

(** String literals of the source. *)
Definition lit (s : string) : str := list_ascii_of_string s.

Definition chr (n : nat) : ascii := ascii_of_nat n.

(** [s.startswith(p)] *)
Fixpoint startswith (s p : str) {struct p} : bool :=
  match p, s with
  | [], _ => true
  | _ :: _, [] => false
  | a :: p', b :: s' => if decide (a = b) then startswith s' p' else false
  end.

(** [s.find(sep)], the index of the first occurrence. *)
Fixpoint find (sep s : str) : option nat :=
  if startswith s sep then Some 0
  else match s with
       | [] => None
       | _ :: s' => S <$> find sep s'
       end.

(** [sep in s] *)
Definition contains (sep s : str) : bool := bool_decide (is_Some (find sep s)).

(** [s.split(sep, maxsplit)] for a non-empty [sep]: cut at the first
    occurrence, at most [maxsplit] times. *)
Fixpoint split_max (maxsplit : nat) (sep s : str) : list str :=
  match maxsplit with
  | 0 => [s]
  | S n =>
      match find sep s with
      | None => [s]
      | Some i => take i s :: split_max n sep (drop (i + length sep) s)
      end
  end.

(** [s.split(sep)]: no limit; a string of [n] characters is cut at most
    [n] times (see [split_max_enough]). *)
Definition split (sep s : str) : list str := split_max (length s) sep s.

(** [parts[i]] where the source has checked the length, or indexes 0 of
    a split (never empty). *)
Definition item (parts : list str) (i : nat) : str := nth i parts [].

(** Whitespace of [str.strip()], on the code points below 256. *)
Definition isspace (c : ascii) : bool :=
  let n := nat_of_ascii c in
  ((9 <=? n) && (n <=? 13)) || ((28 <=? n) && (n <=? 32))
  || (n =? 133) || (n =? 160).

Fixpoint lstrip_by (f : ascii -> bool) (s : str) : str :=
  match s with
  | [] => []
  | c :: s' => if f c then lstrip_by f s' else s
  end.

Definition rstrip_by (f : ascii -> bool) (s : str) : str :=
  reverse (lstrip_by f (reverse s)).

Definition strip_by (f : ascii -> bool) (s : str) : str :=
  rstrip_by f (lstrip_by f s).

(** [s.strip()] *)
Definition strip (s : str) : str := strip_by isspace s.

(** [s.strip(chars)] *)
Definition strip_chars (chars s : str) : str :=
  strip_by (fun c => bool_decide (c ∈ chars)) s.

(** [s.lower()] on the code points below 256. *)
Definition lower_char (c : ascii) : ascii :=
  let n := nat_of_ascii c in
  if ((65 <=? n) && (n <=? 90))
     || ((192 <=? n) && (n <=? 222) && negb (n =? 215))
  then ascii_of_nat (n + 32) else c.

Definition lower (s : str) : str := map lower_char s.

(** Iterating a text file: the lines, each with its newline. *)
Fixpoint lines_from (cur : str) (s : str) : list str :=
  match s with
  | [] => match cur with [] => [] | _ => [reverse cur] end
  | c :: s' =>
      if decide (c = chr 10) then reverse (c :: cur) :: lines_from [] s'
      else lines_from (c :: cur) s'
  end.

Definition lines (s : str) : list str := lines_from [] s.

(** Truth value of a string: non-empty. *)
Definition truthy (s : str) : bool :=
  match s with [] => false | _ => true end.

End Py.

Import Py.

(** ** The world the program runs in *)

(** What the terminal delivers to one [input()] call. *)
Inductive event :=
  | Line (text : str)
  | CtrlC.

Inductive role := System | User | Assistant.

Record message := Message { msg_role : role; msg_content : str }.

(** One [openai.chat.completions.create] call. *)
Record request := Request {
  req_api_key : str;
  req_model : str;
  req_messages : list message;
  req_max_tokens : nat }.

(** What a call does: it returns [choices[0].message.content], raises
    an error with a message, or is interrupted from the keyboard. *)
Inductive response :=
  | Reply (content : str)
  | Failure (msg : str)
  | Interrupted.

Inductive fs_op :=
  | FsMkdir (path : str)
  | FsExists (path : str)
  | FsRead (path : str)
  | FsWrite (path : str) (text : str).

Record world := World {
  environ : gmap str str;
  files : gmap str str;
  stdin : list event;
  stdout : list str;
  api_log : list request;
  fs_log : list fs_op }.

Inductive exn :=
  | EOFError
  | ValueError (msg : str)
  | FileNotFoundError (path : str)
  | APIError (msg : str)
  | KeyboardInterrupt
  | SystemExit (code : Z).

(** [isinstance(e, Exception)]: [KeyboardInterrupt] and [SystemExit]
    derive from [BaseException] only. *)
Definition is_Exception (e : exn) : bool :=
  match e with
  | KeyboardInterrupt | SystemExit _ => false
  | _ => true
  end.

(** [str(e)] *)
Definition exn_str (e : exn) : str :=
  match e with
  | EOFError => lit "EOF when reading a line"
  | ValueError msg => msg
  | FileNotFoundError p =>
      lit "[Errno 2] No such file or directory: '" ++ p ++ lit "'"
  | APIError msg => msg
  | KeyboardInterrupt => []
  | SystemExit _ => []
  end.

Inductive outcome (A : Type) :=
  | Return (a : A)
  | Raise (e : exn)
  | OutOfFuel.
Arguments Return {A} a.
Arguments Raise {A} e.
Arguments OutOfFuel {A}.

(** ** A state and exception monad *)

Definition M (A : Type) : Type := world → outcome A * world.

Global Instance M_ret : MRet M := λ A a w, (Return a, w).

Global Instance M_bind : MBind M := λ A B f m w,
  match m w with
  | (Return a, w') => f a w'
  | (Raise e, w') => (Raise e, w')
  | (OutOfFuel, w') => (OutOfFuel, w')
  end.

Definition raise {A} (e : exn) : M A := λ w, (Raise e, w).

Definition out_of_fuel {A} : M A := λ w, (OutOfFuel, w).

(** [try: body except Exception as e: handler(e)] *)
Definition try_except {A} (body : M A) (handler : exn → M A) : M A := λ w,
  match body w with
  | (Raise e, w') => if is_Exception e then handler e w' else (Raise e, w')
  | r => r
  end.

(** [try: body except KeyboardInterrupt: handler] *)
Definition try_except_interrupt {A} (body : M A) (handler : M A) : M A := λ w,
  match body w with
  | (Raise KeyboardInterrupt, w') => handler w'
  | r => r
  end.

Definition emit (s : str) (w : world) : world :=
  World (environ w) (files w) (stdin w) (stdout w ++ [s]) (api_log w) (fs_log w).

Definition set_stdin (l : list event) (w : world) : world :=
  World (environ w) (files w) l (stdout w) (api_log w) (fs_log w).

Definition set_environ (e : gmap str str) (w : world) : world :=
  World e (files w) (stdin w) (stdout w) (api_log w) (fs_log w).

Definition log_fs (o : fs_op) (w : world) : world :=
  World (environ w) (files w) (stdin w) (stdout w) (api_log w) (fs_log w ++ [o]).

Definition set_files (f : gmap str str) (w : world) : world :=
  World (environ w) f (stdin w) (stdout w) (api_log w) (fs_log w).

Definition log_api (r : request) (w : world) : world :=
  World (environ w) (files w) (stdin w) (stdout w) (api_log w ++ [r]) (fs_log w).

(** [print(s)] *)
Definition print (s : str) : M unit := λ w, (Return (), emit s w).

(** [input(prompt)]: the prompt is shown, then one event is consumed. *)
Definition input (prompt : str) : M str := λ w,
  let w := emit prompt w in
  match stdin w with
  | [] => (Raise EOFError, w)
  | Line s :: rest => (Return s, set_stdin rest w)
  | CtrlC :: rest => (Raise KeyboardInterrupt, set_stdin rest w)
  end.

(** [os.environ.get(key)] *)
Definition environ_get (key : str) : M (option str) := λ w,
  (Return (environ w !! key), w).

(** The messages of the errors of [putenv]. *)
Definition null_byte_message : str := lit "embedded null byte".
Definition illegal_name_message : str :=
  lit "illegal environment variable name".

(** [os.environ[key] = value]: the name and the value are converted for
    [putenv], which a NUL in either of them prevents; [putenv] then
    refuses an empty name and a name with an equals sign. *)
Definition environ_set (key value : str) : M unit := λ w,
  if bool_decide (chr 0 ∈ key ++ value) then
    (Raise (ValueError null_byte_message), w)
  else if bool_decide (key = [] ∨ "="%char ∈ key) then
    (Raise (ValueError illegal_name_message), w)
  else (Return (), set_environ (<[key := value]> (environ w)) w).

(** [path.exists()] *)
Definition path_exists (path : str) : M bool := λ w,
  (Return (bool_decide (is_Some (files w !! path))), log_fs (FsExists path) w).

(** [with open(path, 'r') as f: f.read()] *)
Definition read_file (path : str) : M str := λ w,
  let w := log_fs (FsRead path) w in
  match files w !! path with
  | Some text => (Return text, w)
  | None => (Raise (FileNotFoundError path), w)
  end.

(** [with open(path, 'w') as f: f.write(text)] *)
Definition write_file (path text : str) : M unit := λ w,
  (Return (), set_files (<[path := text]> (files w)) (log_fs (FsWrite path text) w)).

(** [path.mkdir(exist_ok=True)] *)
Definition mkdir (path : str) : M unit := λ w,
  (Return (), log_fs (FsMkdir path) w).

(** [sys.exit(code)] *)
Definition sys_exit {A} (code : Z) : M A := raise (SystemExit code).

(** Paths: [Path(a) / b] and its [str]. *)
Definition path_join (a b : str) : str := a ++ lit "/" ++ b.

(** A text given line by line, joined with newlines. *)
Definition nl : str := [chr 10].

Fixpoint text (ls : list string) : str :=
  match ls with
  | [] => []
  | [l] => lit l
  | l :: ls' => lit l ++ nl ++ text ls'
  end.

(** ** The program *)

Definition STATIC_REF_DIR : str := lit "static-ref".
Definition REPO_DOCS_DIR : str := lit "repo-docs/open-webui-docs".
Definition GENERATED_DIR : str := lit "generated".

Definition OPENAI_API_KEY : str := lit "OPENAI_API_KEY".

(** The characters stripped from the value at line 28: both quotes. *)
Definition quote_chars : str := [chr 34; chr 39].

(** The message of the error of unpacking one value into two names. *)
Definition unpack_message : str :=
  lit "not enough values to unpack (expected 2, got 1)".

(** The body of [for line in f] in [load_env_vars]: the lines still to
    be read. *)
Fixpoint load_env_lines (ls : list str) : M (option str) :=
  match ls with
  | [] => mret None
  | line :: rest =>
      if truthy (strip line) && negb (startswith line (lit "#")) then
        match split_max 1 (lit "=") (strip line) with
        | [key; value] =>
            if decide (key = OPENAI_API_KEY) then
              let value := strip_chars quote_chars value in
              _ ← environ_set key value;
              mret (Some value)
            else load_env_lines rest
        | _ => raise (ValueError unpack_message)
        end
      else load_env_lines rest
  end.

Definition load_env_vars : M (option str) :=
  let env_file := lit ".env" in
  ex ← path_exists env_file;
  if ex : bool then
    content ← read_file env_file;
    load_env_lines (lines content)
  else mret None.

(** [not api_key] for a value that is [None] or a string. *)
Definition falsy (v : option str) : bool :=
  match v with
  | None => true
  | Some s => negb (truthy s)
  end.

Definition get_openai_key : M str :=
  from_env ← environ_get OPENAI_API_KEY;
  api_key ← (if falsy from_env then load_env_vars else mret from_env);
  if falsy api_key then
    _ ← print (lit "OpenAI API key not found in environment or .env file.");
    typed ← input (lit "Please enter your OpenAI API key: ");
    let api_key := strip typed in
    _ ← environ_set OPENAI_API_KEY api_key;
    mret api_key
  else mret (default [] api_key).

(** The two reference files of the static location and of the
    repository documentation. *)
Definition static_env_vars_path : str :=
  path_join STATIC_REF_DIR (lit "env-variables.md").
Definition static_sample_compose_path : str :=
  path_join STATIC_REF_DIR (lit "sample-docker-compose.yaml").
Definition repo_env_vars_path : str :=
  path_join REPO_DOCS_DIR (lit "docs/getting-started/env-configuration.md").
Definition repo_sample_compose_path : str :=
  path_join REPO_DOCS_DIR
    (lit "docs/getting-started/installation/docker-compose.md").

Definition load_documentation : M (str * str) :=
  let env_vars_path := static_env_vars_path in
  let sample_compose_path := static_sample_compose_path in
  e1 ← path_exists env_vars_path;
  e2 ← (if e1 : bool then path_exists sample_compose_path else mret false);
  if e2 : bool then
    env_vars_content ← read_file env_vars_path;
    sample_compose_content ← read_file sample_compose_path;
    mret (env_vars_content, sample_compose_content)
  else
    let env_vars_path := repo_env_vars_path in
    let sample_compose_path := repo_sample_compose_path in
    e ← path_exists env_vars_path;
    env_vars_content ← (if e : bool then read_file env_vars_path else mret []);
    e ← path_exists sample_compose_path;
    sample_compose_content ←
      (if e : bool then read_file sample_compose_path else mret []);
    mret (env_vars_content, sample_compose_content).

Definition truncation_marker : str := lit "... [truncated]".

Definition prompt_head : str := text [
  "You are an expert on OpenWebUI configuration and Docker Compose. ";
  "Your task is to help the user generate a customized Docker Compose file for OpenWebUI.";
  "You should ask the user a series of questions about their preferences for:";
  "1. Database configuration (SQLite or PostgreSQL)";
  "2. Vector database for RAG (Chroma, Milvus, Qdrant, OpenSearch, PGVector)";
  "3. Additional services like Redis";
  "4. Authentication options";
  "5. API integrations";
  "6. Other customizations";
  "";
  "Based on their answers, you'll generate a complete Docker Compose file with all necessary services and volumes.";
  "You'll also generate environment variables, which can be either embedded in the Docker Compose file or in a separate .env.generated file.";
  "";
  "Here's reference documentation on OpenWebUI environment variables:";
  "" ].

Definition prompt_middle : str := text [
  "";
  "";
  "Here's a sample Docker Compose file for OpenWebUI:";
  "" ].

(** The f-string of [system_prompt]. *)
Definition system_prompt (env_vars_content sample_compose_content : str) : str :=
  prompt_head ++ take 4000 env_vars_content ++ truncation_marker
  ++ prompt_middle ++ take 2000 sample_compose_content ++ truncation_marker
  ++ nl.

Definition initial_message : str := text [
  "I'll help you generate a customized Docker Compose file for OpenWebUI. ";
  "I'll ask you a series of questions about your preferences, and then generate the appropriate configuration.";
  "";
  "First, would you prefer to have environment variables embedded directly in the Docker Compose file, or in a separate .env.generated file?" ].

Definition sentinel : str := lit "I'll now generate your Docker Compose file".

Definition final_prompt : str := text [
  "Based on our conversation, please generate:";
  "1. A complete Docker Compose file for OpenWebUI with all the configurations we discussed";
  "2. Environment variables (either embedded or in a separate file as requested)";
  "";
  "Format your response as follows:";
  "```docker-compose";
  "# Docker Compose content here";
  "```";
  "";
  "If environment variables should be in a separate file:";
  "```env";
  "# Environment variables content here";
  "```";
  "";
  "Make sure to include all necessary services, volumes, and environment variables based on the user's preferences." ].

Definition fence : str := lit "```".
Definition docker_compose_marker : str := lit "```docker-compose".
Definition env_marker : str := lit "```env".
Definition yaml_marker : str := lit "```yaml".

(** [parts[1].split(fence)[0].strip()] when [len(parts) > 1]. *)
Definition block_of (parts : list str) (otherwise : str) : str :=
  if bool_decide (1 < length parts)
  then strip (item (split fence (item parts 1)) 0)
  else otherwise.

(** Lines 164 to 181: the two contents taken from the final reply. *)
Definition extract (generation_response : str) : str * str :=
  let docker_compose_content := [] in
  let env_content := [] in
  let docker_compose_content :=
    if contains docker_compose_marker generation_response
    then block_of (split docker_compose_marker generation_response)
                  docker_compose_content
    else docker_compose_content in
  let env_content :=
    if contains env_marker generation_response
    then block_of (split env_marker generation_response) env_content
    else env_content in
  let docker_compose_content :=
    if negb (truthy docker_compose_content)
       && contains yaml_marker generation_response
    then block_of (split yaml_marker generation_response)
                  docker_compose_content
    else docker_compose_content in
  (docker_compose_content, env_content).

Definition docker_compose_path : str :=
  path_join GENERATED_DIR (lit "docker-compose.yaml").
Definition env_path : str := path_join GENERATED_DIR (lit ".env.generated").

(** Lines 183 to 207: writing and reporting the two contents. *)
Definition save (docker_compose_content env_content : str) : M unit :=
  _ ← write_file docker_compose_path docker_compose_content;
  _ ← (if truthy env_content then
         _ ← write_file env_path env_content;
         print (nl ++ lit "Environment variables saved to " ++ env_path)
       else mret ());
  _ ← print (nl ++ lit "Docker Compose file generated at " ++ docker_compose_path);
  _ ← print (nl ++ lit "To start your OpenWebUI stack, run:");
  _ ← print (lit "cd " ++ GENERATED_DIR ++ lit " && docker-compose up -d");
  show_files ← input (nl ++ lit "Would you like to see the generated files? (yes/no): ");
  if bool_decide (lower show_files ∈ [lit "yes"; lit "y"]) then
    _ ← print (nl ++ lit "--- Docker Compose File ---");
    _ ← print docker_compose_content;
    if truthy env_content then
      _ ← print (nl ++ lit "--- Environment Variables ---");
      print env_content
    else mret ()
  else mret ().

(** Lines 161 to 207: what is done with the final reply. *)
Definition finalize (generation_response : str) : M unit :=
  let '(docker_compose_content, env_content) := extract generation_response in
  save docker_compose_content env_content.

(** How one pass through the loop body ends. *)
Inductive flow :=
  | Continue (messages : list message)
  | Break.

Section Generator.

(** The language-model service: the reply to the [n]-th call. *)
Variable api : nat → request → response.

(** [openai.chat.completions.create(...)] and [.choices[0].message.content] *)
Definition chat_create (r : request) : M str := λ w,
  let w' := log_api r w in
  match api (length (api_log w)) r with
  | Reply content => (Return content, w')
  | Failure msg => (Raise (APIError msg), w')
  | Interrupted => (Raise KeyboardInterrupt, w')
  end.

(** The [try] block of the loop, lines 124 to 209. *)
Definition turn (api_key : str) (messages : list message) : M flow :=
  ai_response ← chat_create (Request api_key (lit "gpt-4") messages 1500);
  let messages := messages ++ [Message Assistant ai_response] in
  _ ← print (nl ++ lit "AI: " ++ ai_response);
  if contains sentinel ai_response then
    let messages := messages ++ [Message User final_prompt] in
    generation_response ←
      chat_create (Request api_key (lit "gpt-4") messages 2000);
    _ ← finalize generation_response;
    mret Break
  else mret (Continue messages).

(** The [except Exception as e] clause, lines 211 to 213. *)
Definition on_error (e : exn) : M flow :=
  _ ← print (lit "Error: " ++ exn_str e);
  mret Break.

(** [while True], lines 114 to 213; every pass reads one line, so
    [fuel] bounds the number of passes. *)
Fixpoint conversation (fuel : nat) (api_key : str) (messages : list message)
  : M unit :=
  match fuel with
  | 0 => out_of_fuel
  | S fuel' =>
      user_input ← input (nl ++ lit "You: ");
      if bool_decide (lower user_input ∈ [lit "exit"; lit "quit"; lit "q"])
      then print (lit "Exiting generator.")
      else
        let messages := messages ++ [Message User user_input] in
        f ← try_except (turn api_key messages) on_error;
        match f with
        | Break => mret ()
        | Continue messages => conversation fuel' api_key messages
        end
  end.

(** The loop started with as many passes as the terminal can feed, plus
    the one that meets the end of input. *)
Definition run_conversation (api_key : str) (messages : list message)
  : M unit :=
  λ w, conversation (S (length (stdin w))) api_key messages w.

Inductive reference := Static | RepoDocs.

Definition generate_docker_compose
    (api_key : str) (reference_source : reference) (env_vars_in_file : bool)
  : M unit :=
  '(env_vars_content, sample_compose_content) ← load_documentation;
  let system_prompt := system_prompt env_vars_content sample_compose_content in
  let messages := [Message System system_prompt] in
  let messages := messages ++ [Message Assistant initial_message] in
  _ ← print (lit "AI: " ++ initial_message);
  run_conversation api_key messages.

(** The parsed command line. *)
Record args := Args { arg_reference : reference; arg_env_in_file : bool }.

(** What [argparse] makes of the command line of the process: the
    arguments; the help text, for [-h] or [--help]; or an error, for a
    command line that the parser refuses. *)
Inductive command_line :=
  | Parsed (a : args)
  | Help (help_text : str)
  | Refused.

(** [parser.parse_args()], lines 217 to 222: the help is written to the
    standard output before the exit with status 0 ([help_text] is the
    help without its final newline); an error is reported on the
    standard error before the exit with status 2. *)
Definition parse_args (argv : command_line) : M args :=
  match argv with
  | Parsed a => mret a
  | Help help_text => _ ← print help_text; sys_exit 0
  | Refused => sys_exit 2
  end.

Definition main (argv : command_line) : M unit :=
  a ← parse_args argv;
  _ ← print (lit "OpenWebUI Docker Compose Generator");
  _ ← print (lit "----------------------------------");
  api_key ← get_openai_key;
  _ ← (if negb (truthy api_key) then
         _ ← print (lit "Error: OpenAI API key is required.");
         sys_exit 1
       else mret ());
  generate_docker_compose api_key (arg_reference a) (arg_env_in_file a).

(** The module: line 16, then the [__main__] block. *)
Definition script (argv : command_line) : M unit :=
  _ ← mkdir GENERATED_DIR;
  try_except_interrupt (main argv)
    (_ ← print (nl ++ lit "Generator interrupted. Exiting."); sys_exit 0).


End Generator.

(** * The vocabulary of the properties *)

(** [sep] occurs in [s] at index [i]. *)
Definition occurs_at (sep s : str) (i : nat) : Prop :=
  ∃ a b, s = a ++ sep ++ b ∧ length a = i.

(** The text before the first [sep], or all of it. *)
Definition up_to (sep s : str) : str :=
  match find sep s with
  | Some i => take i s
  | None => s
  end.

(** The text that follows the first [marker] of [response], cut at the
    next [marker] and then at the first fence, and trimmed; empty when
    [marker] does not occur. *)
Definition fenced_text (marker response : str) : str :=
  match find marker response with
  | Some i =>
      strip (up_to fence (up_to marker (drop (i + length marker) response)))
  | None => []
  end.

(** [response] has a block opened by the first [marker], holding [body]
    up to the next fence, a fence of three backticks exactly. *)
Definition opens_block (marker response pre body post : str) : Prop :=
  response = pre ++ marker ++ body ++ fence ++ post
  ∧ find marker response = Some (length pre)
  ∧ find fence (body ++ fence ++ post) = Some (length body)
  ∧ head post ≠ Some "`"%char.

(** Unfolding the operations of the monad. *)
Ltac run :=
  unfold mbind, M_bind, mret, M_ret, print, input, write_file, path_exists,
    read_file, environ_get, mkdir, sys_exit, raise, out_of_fuel;
  cbn [fst snd environ files stdin stdout api_log fs_log
       emit set_stdin set_environ log_fs set_files log_api].

(** The files written by [save]: the configuration always, and the
    environment text when it is not empty. *)
Definition writes_of (docker_compose_content env_content : str) : list fs_op :=
  FsWrite docker_compose_path docker_compose_content
  :: (if truthy env_content then [FsWrite env_path env_content] else []).

(** A line the loop passes over without looking at it: blank, or
    starting with a hash. *)
Definition skipped (line : str) : Prop :=
  strip line = [] ∨ startswith line (lit "#") = true.

(** A line the loop leaves behind: skipped, or a line [key=value] of
    another key. *)
Definition passed_over (line : str) : Prop :=
  skipped line
  ∨ ∃ key value, strip line = key ++ lit "=" ++ value
                 ∧ ("="%char ∉ key) ∧ (key ≠ OPENAI_API_KEY).

(** The dotenv file of [load_env_vars]. *)
Definition env_file : str := lit ".env".

(** The value the claim describes: [value] without one layer of
    matching quote characters, when it has one. *)
Definition strip_one_matching_layer (value : str) : str :=
  match value with
  | q :: rest =>
      if bool_decide (q ∈ quote_chars) && bool_decide (last rest = Some q)
      then removelast rest
      else value
  | [] => []
  end.

(** The question of the loop, line 115. *)
Definition you_prompt : str := nl ++ lit "You: ".

(** The request of a conversation turn, and the final request made
    after the reply [ai_response] that holds the sentinel. *)
Definition turn_request (api_key : str) (messages : list message) : request :=
  Request api_key (lit "gpt-4") messages 1500.

Definition final_request (api_key : str) (messages : list message)
    (ai_response : str) : request :=
  Request api_key (lit "gpt-4")
    ((messages ++ [Message Assistant ai_response])
     ++ [Message User final_prompt]) 2000.

(** The line printed by the [except] clause. *)
Definition error_line (msg : str) : str := lit "Error: " ++ msg.

(** The same, with the operations of the loop body. *)
Ltac run_loop :=
  unfold try_except, turn, on_error, chat_create;
  run.

(** The words that end the loop, line 117. *)
Definition exit_words : list str := [lit "exit"; lit "quit"; lit "q"].

(** What a failed call leaves behind: the loop has returned, the call
    is the last one, no file was touched, and the error line is the
    last line printed and was not printed before. *)
Definition ends_on_failure (w w' : world) (r : outcome unit)
    (i : nat) (msg : str) : Prop :=
  r = Return ()
  ∧ length (api_log w') = S i
  ∧ fs_log w' = fs_log w
  ∧ files w' = files w
  ∧ ∃ out, stdout w' = stdout w ++ out ++ [error_line msg]
           ∧ error_line msg ∉ out.




(** ** The runs of the loop *)

(** The world after the question of the loop was answered. *)
Definition asked (rest : list event) (w : world) : world :=
  set_stdin rest (emit you_prompt w).

(** The world after the reply [ai_response] to the line [user_input]
    was printed. *)
Definition answered (api_key : str) (messages : list message)
    (user_input ai_response : str) (rest : list event) (w : world) : world :=
  emit (nl ++ lit "AI: " ++ ai_response)
    (log_api (turn_request api_key (messages ++ [Message User user_input]))
       (asked rest w)).

(** What the [except] clause makes of the outcome of [finalize]. *)
Definition handled (r : outcome unit) (w : world) : outcome unit * world :=
  match r with
  | Raise e =>
      if is_Exception e
      then (Return (), emit (error_line (exn_str e)) w)
      else (Raise e, w)
  | _ => (r, w)
  end.

(** The runs of the loop started with the transcript [messages] in the
    world [w]: their outcome and final world, by the way they end. *)
Inductive loop_run (api : nat → request → response) (api_key : str)
  : list message → world → outcome unit → world → Prop :=
  | run_end_of_input messages w :
      stdin w = [] →
      loop_run api api_key messages w (Raise EOFError) (emit you_prompt w)
  | run_interrupt messages w rest :
      stdin w = CtrlC :: rest →
      loop_run api api_key messages w (Raise KeyboardInterrupt) (asked rest w)
  | run_exit messages w user_input rest :
      stdin w = Line user_input :: rest →
      lower user_input ∈ exit_words →
      loop_run api api_key messages w (Return ())
        (emit (lit "Exiting generator.") (asked rest w))
  | run_call_failure messages w user_input rest msg :
      stdin w = Line user_input :: rest →
      lower user_input ∉ exit_words →
      api (length (api_log w))
        (turn_request api_key (messages ++ [Message User user_input]))
      = Failure msg →
      loop_run api api_key messages w (Return ())
        (emit (error_line msg)
           (log_api
              (turn_request api_key (messages ++ [Message User user_input]))
              (asked rest w)))
  | run_call_interrupt messages w user_input rest :
      stdin w = Line user_input :: rest →
      lower user_input ∉ exit_words →
      api (length (api_log w))
        (turn_request api_key (messages ++ [Message User user_input]))
      = Interrupted →
      loop_run api api_key messages w (Raise KeyboardInterrupt)
        (log_api
           (turn_request api_key (messages ++ [Message User user_input]))
           (asked rest w))
  | run_continue messages w user_input rest ai_response r w' :
      stdin w = Line user_input :: rest →
      lower user_input ∉ exit_words →
      api (length (api_log w))
        (turn_request api_key (messages ++ [Message User user_input]))
      = Reply ai_response →
      contains sentinel ai_response = false →
      loop_run api api_key
        ((messages ++ [Message User user_input])
         ++ [Message Assistant ai_response])
        (answered api_key messages user_input ai_response rest w) r w' →
      loop_run api api_key messages w r w'
  | run_final_failure messages w user_input rest ai_response msg :
      stdin w = Line user_input :: rest →
      lower user_input ∉ exit_words →
      api (length (api_log w))
        (turn_request api_key (messages ++ [Message User user_input]))
      = Reply ai_response →
      contains sentinel ai_response = true →
      api (S (length (api_log w)))
        (final_request api_key (messages ++ [Message User user_input])
           ai_response)
      = Failure msg →
      loop_run api api_key messages w (Return ())
        (emit (error_line msg)
           (log_api
              (final_request api_key (messages ++ [Message User user_input])
                 ai_response)
              (answered api_key messages user_input ai_response rest w)))
  | run_final_interrupt messages w user_input rest ai_response :
      stdin w = Line user_input :: rest →
      lower user_input ∉ exit_words →
      api (length (api_log w))
        (turn_request api_key (messages ++ [Message User user_input]))
      = Reply ai_response →
      contains sentinel ai_response = true →
      api (S (length (api_log w)))
        (final_request api_key (messages ++ [Message User user_input])
           ai_response)
      = Interrupted →
      loop_run api api_key messages w (Raise KeyboardInterrupt)
        (log_api
           (final_request api_key (messages ++ [Message User user_input])
              ai_response)
           (answered api_key messages user_input ai_response rest w))
  | run_finalize messages w user_input rest ai_response generation_response
      r w' :
      stdin w = Line user_input :: rest →
      lower user_input ∉ exit_words →
      api (length (api_log w))
        (turn_request api_key (messages ++ [Message User user_input]))
      = Reply ai_response →
      contains sentinel ai_response = true →
      api (S (length (api_log w)))
        (final_request api_key (messages ++ [Message User user_input])
           ai_response)
      = Reply generation_response →
      finalize generation_response
        (log_api
           (final_request api_key (messages ++ [Message User user_input])
              ai_response)
           (answered api_key messages user_input ai_response rest w))
      = (r, w') →
      loop_run api api_key messages w (fst (handled r w')) (snd (handled r w')).

(** A request of a run whose transcript began as [messages]. *)
Definition well_formed_request (api_key : str) (messages : list message)
    (req : request) : Prop :=
  req_api_key req = api_key
  ∧ req_model req = lit "gpt-4"
  ∧ messages `prefix_of` req_messages req
  ∧ (req_max_tokens req = 1500 ∨ req_max_tokens req = 2000).

(** Every request carries the transcript of the requests before it. *)
Definition growing (reqs : list request) : Prop :=
  ∀ i j req_i req_j,
    i ≤ j → reqs !! i = Some req_i → reqs !! j = Some req_j →
    req_messages req_i `prefix_of` req_messages req_j.

(** Only the last request is a final one. *)
Definition final_last (reqs : list request) : Prop :=
  ∀ i req, reqs !! i = Some req → S i < length reqs →
    req_max_tokens req = 1500.

(** The transcript with which the loop starts. *)
Definition seed (env_vars_content sample_compose_content : str)
  : list message :=
  [Message System (system_prompt env_vars_content sample_compose_content);
   Message Assistant initial_message].

(** The files after the two texts were saved. *)
Definition saved (docker_compose_content env_content : str)
    (fs : gmap str str) : gmap str str :=
  if truthy env_content
  then <[env_path := env_content]>
         (<[docker_compose_path := docker_compose_content]> fs)
  else <[docker_compose_path := docker_compose_content]> fs.

(** No operation of the trace writes a file. *)
Definition read_only (ops : list fs_op) : Prop :=
  ∀ path content, FsWrite path content ∉ ops.

(** The dotenv file is missing, or none of its lines is a line of the
    key. *)
Definition no_key_in_dotenv (w : world) : Prop :=
  files w !! env_file = None
  ∨ ∃ content, files w !! env_file = Some content
               ∧ Forall passed_over (lines content).

(** A text that is trimmed and holds no fence: it neither begins nor
    ends with white space, and three backticks occur nowhere in it. *)
Definition clean (t : str) : Prop :=
  (∀ c, head t = Some c → isspace c = false)
  ∧ (∀ c, last t = Some c → isspace c = false)
  ∧ contains fence t = false.

(** Operations on the dotenv file that only look at it. *)
Definition dotenv_only (ops : list fs_op) : Prop :=
  Forall (λ op, op = FsExists env_file ∨ op = FsRead env_file) ops.

(** * Properties *)

(** ** Storing the key in the environment *)

(** The name of the key is one that [putenv] accepts: storing a value
    under it fails exactly when the value holds a NUL. *)
Lemma environ_set_key (value : str) (w : world) :
  environ_set OPENAI_API_KEY value w
  = if bool_decide (chr 0 ∈ value)
    then (Raise (ValueError null_byte_message), w)
    else (Return (), set_environ (<[OPENAI_API_KEY := value]> (environ w)) w).
Proof.
  unfold environ_set.
  assert (chr 0 ∉ OPENAI_API_KEY) as Hname
    by (apply (bool_decide_unpack _); by vm_compute).
  rewrite (bool_decide_ext (chr 0 ∈ OPENAI_API_KEY ++ value) (chr 0 ∈ value)).
  2: { rewrite elem_of_app. tauto. }
  destruct (bool_decide (chr 0 ∈ value)); [done|].
  rewrite bool_decide_eq_false_2; [done|].
  intros [H|H]; [discriminate H|]. revert H.
  apply (bool_decide_unpack _). by vm_compute.
Qed.

(** ** Searching and splitting *)

Lemma startswith_true (s p : str) :
  startswith s p = true ↔ ∃ r, s = p ++ r.
Proof.
  revert s. induction p as [|a p IH]; intros s; simpl.
  - split; [intros _; by exists s | done].
  - destruct s as [|b s].
    + split; [discriminate | intros [r Hr]; discriminate].
    + destruct (decide (a = b)) as [->|Hne].
      * rewrite IH. split; intros [r Hr]; exists r; congruence.
      * split; [discriminate | intros [r Hr]; congruence].
Qed.

Lemma startswith_occurs (s sep : str) :
  startswith s sep = true ↔ occurs_at sep s 0.
Proof.
  rewrite startswith_true. split.
  - intros [r ->]. by exists [], r.
  - intros (a & b & -> & Ha). destruct a; [|discriminate]. by exists b.
Qed.

Lemma occurs_at_cons (sep : str) (c : ascii) (s : str) (i : nat) :
  occurs_at sep (c :: s) (S i) ↔ occurs_at sep s i.
Proof.
  split.
  - intros (a & b & Hs & Ha). destruct a as [|c' a]; [discriminate|].
    simplify_eq/=. by exists a, b.
  - intros (a & b & -> & Ha). exists (c :: a), b. by rewrite <- Ha.
Qed.

Lemma occurs_at_length (sep s : str) (i : nat) :
  occurs_at sep s i → i + length sep ≤ length s.
Proof. intros (a & b & -> & <-). rewrite !length_app. lia. Qed.

(** [find] returns the first occurrence. *)
Lemma find_Some (sep s : str) (i : nat) :
  find sep s = Some i ↔
  occurs_at sep s i ∧ ∀ j, j < i → ¬ occurs_at sep s j.
Proof.
  revert i. induction s as [|c s IH]; intros i.
  - simpl. destruct (startswith [] sep) eqn:Hp.
    + apply startswith_occurs in Hp. split.
      * intros [= <-]. split; [done | lia].
      * intros [_ Hmin]. destruct i; [done|].
        exfalso. apply (Hmin 0); [lia | done].
    + split; [discriminate|]. intros [Ho _].
      pose proof (occurs_at_length _ _ _ Ho) as Hl. simpl in Hl.
      assert (i = 0) as -> by lia.
      apply startswith_occurs in Ho. congruence.
  - cbn [find]. destruct (startswith (c :: s) sep) eqn:Hp.
    + apply startswith_occurs in Hp. split.
      * intros [= <-]. split; [done | lia].
      * intros [_ Hmin]. destruct i; [done|].
        exfalso. apply (Hmin 0); [lia | done].
    + assert (¬ occurs_at sep (c :: s) 0) as H0.
      { rewrite <- startswith_occurs. congruence. }
      destruct i as [|i].
      * split; [|by intros [? _]].
        destruct (find sep s); discriminate.
      * rewrite occurs_at_cons. split.
        -- destruct (find sep s) as [k|] eqn:Hf; [|discriminate].
           intros [= ->]. destruct (IH i) as [IH1 _].
           destruct (IH1 eq_refl) as [Ho Hmin]. split; [done|].
           intros [|j] Hj; [done|]. rewrite occurs_at_cons. apply Hmin. lia.
        -- intros [Ho Hmin].
           assert (find sep s = Some i) as ->; [|done].
           apply IH. split; [done|]. intros j Hj Hoj.
           apply (Hmin (S j)); [lia|]. by apply occurs_at_cons.
Qed.

Lemma find_None (sep s : str) :
  find sep s = None ↔ ∀ i, ¬ occurs_at sep s i.
Proof.
  induction s as [|c s IH].
  - simpl. destruct (startswith [] sep) eqn:Hp.
    + apply startswith_occurs in Hp. split; [discriminate|].
      intros H. by destruct (H 0).
    + split; [|done]. intros _ i Ho.
      pose proof (occurs_at_length _ _ _ Ho) as Hl. simpl in Hl.
      assert (i = 0) as -> by lia.
      apply startswith_occurs in Ho. congruence.
  - cbn [find]. destruct (startswith (c :: s) sep) eqn:Hp.
    + apply startswith_occurs in Hp. split; [discriminate|].
      intros H. by destruct (H 0).
    + assert (¬ occurs_at sep (c :: s) 0) as H0.
      { rewrite <- startswith_occurs. congruence. }
      destruct (find sep s) as [k|] eqn:Hf; simpl.
      * split; [discriminate|]. intros H. exfalso.
        apply find_Some in Hf as [Ho _].
        apply (H (S k)). by apply occurs_at_cons.
      * split; [|done]. intros _ [|i]; [done|].
        rewrite occurs_at_cons. by apply IH.
Qed.

Lemma contains_true (sep s : str) :
  contains sep s = true ↔ ∃ i, find sep s = Some i.
Proof. unfold contains. rewrite bool_decide_eq_true. by unfold is_Some. Qed.

Lemma contains_false (sep s : str) :
  contains sep s = false ↔ find sep s = None.
Proof.
  unfold contains. rewrite bool_decide_eq_false.
  rewrite <- eq_None_not_Some. done.
Qed.

(** [sep in s] holds exactly when [s] is some text, [sep], some text. *)
Lemma contains_occurs (sep s : str) :
  contains sep s = true ↔ ∃ a b, s = a ++ sep ++ b.
Proof.
  rewrite contains_true. split.
  - intros [i Hi]. apply find_Some in Hi as [(a & b & -> & _) _]. eauto.
  - intros (a & b & ->).
    destruct (find sep (a ++ sep ++ b)) as [i|] eqn:Hf; [eauto|].
    exfalso. eapply find_None; [exact Hf|]. by exists a, b.
Qed.

Lemma find_lt (sep s : str) (i : nat) :
  sep ≠ [] → find sep s = Some i → i < length s.
Proof.
  intros Hsep Hf. apply find_Some in Hf as [Ho _].
  apply occurs_at_length in Ho. destruct sep; [done|]. simpl in Ho. lia.
Qed.

Lemma find_nil (sep : str) : sep ≠ [] → find sep [] = None.
Proof. intros Hsep. by destruct sep. Qed.

Lemma item_split_0 (sep s : str) :
  item (split sep s) 0 = up_to sep s.
Proof.
  unfold split, up_to. destruct s as [|c s].
  - cbn [length split_max item nth].
    destruct (find sep []); [by rewrite take_nil | done].
  - cbn [length split_max]. by destruct (find sep (c :: s)).
Qed.

Lemma split_Some (sep s : str) (i : nat) :
  sep ≠ [] → find sep s = Some i →
  1 < length (split sep s) ∧
  item (split sep s) 1 = up_to sep (drop (i + length sep) s).
Proof.
  intros Hsep Hf. pose proof (find_lt _ _ _ Hsep Hf) as Hlt.
  unfold split. destruct (length s) as [|n] eqn:Hn; [lia|].
  cbn [split_max]. rewrite Hf. unfold item. cbn [nth length].
  set (s' := drop (i + length sep) s).
  split.
  - destruct n; simpl; [lia|]. destruct (find sep s'); simpl; lia.
  - unfold up_to. destruct n as [|n].
    + assert (s' = []) as ->.
      { assert (0 < length sep) by (destruct sep; [done | simpl; lia]).
        apply nil_length_inv. unfold s'. rewrite length_drop. lia. }
      cbn [split_max nth].
      destruct (find sep []); [by rewrite take_nil | done].
    + cbn [split_max]. by destruct (find sep s').
Qed.

Lemma split_None (sep s : str) :
  find sep s = None → split sep s = [s].
Proof.
  intros Hf. unfold split. destruct (length s); simpl; [done|]. by rewrite Hf.
Qed.

(** Cutting more often than the string is long changes nothing. *)
Lemma split_max_enough (sep s : str) (n : nat) :
  sep ≠ [] → length s ≤ n → split_max n sep s = split sep s.
Proof.
  intros Hsep. unfold split.
  assert (∀ m k t, length t ≤ m → length t ≤ k →
            split_max m sep t = split_max k sep t) as H.
  { induction m as [|m IH]; intros k t Hm Hk.
    - assert (t = []) as -> by (apply nil_length_inv; lia).
      destruct k; cbn [split_max]; [done|]. by rewrite find_nil.
    - destruct k as [|k].
      + assert (t = []) as -> by (apply nil_length_inv; lia).
        cbn [split_max]. by rewrite find_nil.
      + cbn [split_max]. destruct (find sep t) as [i|] eqn:Hf; [|done].
        f_equal. pose proof (find_lt _ _ _ Hsep Hf).
        assert (0 < length sep) by (destruct sep; [done | simpl; lia]).
        apply IH; rewrite length_drop; lia. }
  intros Hn. by apply H.
Qed.

Lemma occurs_at_lookup (sep s : str) (i k : nat) (c : ascii) :
  occurs_at sep s i → sep !! k = Some c → s !! (i + k) = Some c.
Proof.
  intros (a & b & -> & <-) Hk.
  rewrite lookup_app_r by lia.
  replace (length a + k - length a) with k by lia.
  by apply lookup_app_l_Some.
Qed.

Lemma occurs_at_take (sep s : str) (i p : nat) :
  occurs_at sep (take p s) i → occurs_at sep s i.
Proof.
  intros (a & b & Hs & Ha). exists a, (b ++ drop p s). split; [|done].
  rewrite <- (take_drop p s) at 1. rewrite Hs. by rewrite <- !app_assoc.
Qed.

Lemma occurs_at_take_in (sep s : str) (i p : nat) :
  occurs_at sep s i → i + length sep ≤ p → occurs_at sep (take p s) i.
Proof.
  intros (a & b & -> & <-) Hp.
  exists a, (take (p - length a - length sep) b). split; [|done].
  rewrite take_app_ge by lia. f_equal.
  rewrite take_app_ge by lia. done.
Qed.

Lemma occurs_at_prefix (sep tag s : str) (i : nat) :
  occurs_at (sep ++ tag) s i → occurs_at sep s i.
Proof.
  intros (a & b & -> & <-). exists a, (tag ++ b). by rewrite <- !app_assoc.
Qed.

(** ** The extraction, by first occurrences *)

Lemma block_of_split (marker response otherwise : str) :
  marker ≠ [] →
  (if contains marker response
   then block_of (split marker response) otherwise else otherwise)
  = match find marker response with
    | Some i =>
        strip (up_to fence (up_to marker (drop (i + length marker) response)))
    | None => otherwise
    end.
Proof.
  intros Hm. destruct (find marker response) as [i|] eqn:Hf.
  - assert (contains marker response = true) as -> by (apply contains_true; eauto).
    destruct (split_Some _ _ _ Hm Hf) as [Hlen Hitem].
    unfold block_of. rewrite bool_decide_eq_true_2 by done.
    by rewrite item_split_0, Hitem.
  - by assert (contains marker response = false) as -> by by apply contains_false.
Qed.

(** What lines 164 to 181 compute. *)
Lemma extract_fenced_text (response : str) :
  extract response =
  (let docker_compose_content := fenced_text docker_compose_marker response in
   if truthy docker_compose_content then docker_compose_content
   else fenced_text yaml_marker response,
   fenced_text env_marker response).
Proof.
  unfold extract.
  rewrite (block_of_split docker_compose_marker) by done.
  rewrite (block_of_split env_marker) by done.
  fold (fenced_text docker_compose_marker response).
  fold (fenced_text env_marker response).
  cbv zeta. f_equal.
  destruct (truthy (fenced_text docker_compose_marker response)) eqn:Ht;
    cbn [negb andb]; [done|].
  assert (fenced_text docker_compose_marker response = []) as ->
    by (destruct (fenced_text docker_compose_marker response); done).
  by rewrite (block_of_split yaml_marker) by done.
Qed.

Lemma up_to_block (tag body post : str) :
  find fence (body ++ fence ++ post) = Some (length body) →
  head post ≠ Some "`"%char →
  up_to fence (up_to (fence ++ tag) (body ++ fence ++ post)) = body.
Proof.
  intros Hf Hpost. set (rest := body ++ fence ++ post) in *.
  pose proof Hf as Hf'. apply find_Some in Hf' as [Hocc Hmin].
  assert (take (length body) rest = body) as Htake
    by (unfold rest; by rewrite take_app_length).
  unfold up_to at 2. destruct (find (fence ++ tag) rest) as [p|] eqn:Hp.
  - apply find_Some in Hp as [Hop _]. apply occurs_at_prefix in Hop.
    assert (length body ≤ p) as Hle.
    { destruct (decide (p < length body)) as [Hlt|]; [|lia].
      by destruct (Hmin p Hlt). }
    destruct (decide (p = length body)) as [->|Hne].
    + rewrite Htake. unfold up_to.
      destruct (find fence body) as [j|] eqn:Hj; [|done].
      exfalso. apply find_Some in Hj as [Hoj _].
      pose proof (occurs_at_length _ _ _ Hoj) as Hl. simpl in Hl.
      apply (Hmin j); [lia|]. rewrite <- Htake in Hoj.
      by eapply occurs_at_take.
    + destruct (decide (p < length body + 3)) as [Hlt|Hge3].
      * exfalso. apply Hpost.
        assert (rest !! (length body + 3) = Some "`"%char) as Hc.
        { replace (length body + 3) with (p + (length body + 3 - p)) by lia.
          eapply occurs_at_lookup; [exact Hop|].
          assert (length body + 3 - p = 1 ∨ length body + 3 - p = 2)
            as [->| ->] by lia; done. }
        unfold rest in Hc. rewrite lookup_app_r in Hc by lia.
        replace (length body + 3 - length body) with 3 in Hc by lia.
        change (post !! 0 = Some "`"%char) in Hc.
        by destruct post.
      * unfold up_to.
        assert (find fence (take p rest) = Some (length body)) as ->.
        { apply find_Some. split.
          - apply occurs_at_take_in; [done|]. simpl. lia.
          - intros j Hj Hoj. apply (Hmin j Hj). by eapply occurs_at_take. }
        rewrite take_take. replace (length body `min` p) with (length body) by lia.
        done.
  - unfold up_to. by rewrite Hf.
Qed.

Lemma fenced_text_block (tag response pre body post : str) :
  opens_block (fence ++ tag) response pre body post →
  fenced_text (fence ++ tag) response = strip body.
Proof.
  intros (-> & Hfirst & Hclose & Hpost). unfold fenced_text. rewrite Hfirst.
  rewrite (app_assoc pre (fence ++ tag)).
  rewrite <- length_app, drop_app_length.
  by rewrite up_to_block.
Qed.

(** ** Running the monad *)

Lemma bool_decide_is_Some {A} (x : A) : bool_decide (is_Some (Some x)) = true.
Proof. by apply bool_decide_eq_true_2. Qed.

Lemma bool_decide_is_None {A} : bool_decide (is_Some (@None A)) = false.
Proof. apply bool_decide_eq_false_2. by intros []. Qed.

Lemma save_effects (docker_compose_content env_content : str) (w : world) :
  let w' := snd (save docker_compose_content env_content w) in
  fs_log w' = fs_log w ++ writes_of docker_compose_content env_content
  ∧ files w' =
      (if truthy env_content
       then <[env_path := env_content]>
              (<[docker_compose_path := docker_compose_content]> (files w))
       else <[docker_compose_path := docker_compose_content]> (files w))
  ∧ api_log w' = api_log w.
Proof.
  unfold save, writes_of. run.
  destruct (truthy env_content); run;
    destruct (stdin w) as [|[show_files|] rest]; run;
    try destruct (bool_decide _); run;
    rewrite <- ?app_assoc; done.
Qed.

Lemma finalize_effects (generation_response : str) (w : world) :
  let w' := snd (finalize generation_response w) in
  let docker_compose_content := fst (extract generation_response) in
  let env_content := snd (extract generation_response) in
  fs_log w' = fs_log w ++ writes_of docker_compose_content env_content
  ∧ files w' =
      (if truthy env_content
       then <[env_path := env_content]>
              (<[docker_compose_path := docker_compose_content]> (files w))
       else <[docker_compose_path := docker_compose_content]> (files w))
  ∧ api_log w' = api_log w.
Proof.
  unfold finalize. destruct (extract generation_response) as [d e].
  apply save_effects.
Qed.

Lemma docker_compose_path_ne_env_path : docker_compose_path ≠ env_path.
Proof. discriminate. Qed.

(** ** Extraction and persistence *)

(** C2. For every final reply in which none of the three fence markers
    occurs, both extracted texts are empty, the configuration file
    generated/docker-compose.yaml is written with empty content, and that
    is the only file written: no environment-variable file. *)
Theorem C2_no_marker_empty_configuration (generation_response : str) (w : world) :
  contains docker_compose_marker generation_response = false →
  contains yaml_marker generation_response = false →
  contains env_marker generation_response = false →
  let w' := snd (finalize generation_response w) in
  extract generation_response = ([], [])
  ∧ fs_log w' = fs_log w ++ [FsWrite docker_compose_path []]
  ∧ files w' !! docker_compose_path = Some []
  ∧ files w' !! env_path = files w !! env_path.
Proof.
  intros Hdc Hyaml Henv w'.
  assert (extract generation_response = ([], [])) as Hex.
  { unfold extract. by rewrite Hdc, Hyaml, Henv. }
  destruct (finalize_effects generation_response w) as (Hlog & Hfiles & _).
  fold w' in Hlog, Hfiles. rewrite Hex in Hlog, Hfiles. simpl in Hlog, Hfiles.
  repeat split; [done | done | |].
  - rewrite Hfiles. apply lookup_insert_eq.
  - rewrite Hfiles. apply lookup_insert_ne, docker_compose_path_ne_env_path.
Qed.

(** A reply without fences, on an empty disk, answered with "no". *)
Lemma C2_no_marker_witness :
  let w := World ∅ ∅ [Line (lit "no")] [] [] [] in
  let w' := snd (finalize (lit "I cannot produce that file.") w) in
  fs_log w' = [FsWrite docker_compose_path []]
  ∧ files w' !! docker_compose_path = Some [].
Proof.
  intros w w'.
  destruct (C2_no_marker_empty_configuration
              (lit "I cannot produce that file.") w) as (_ & Hlog & Hdc & _);
    [vm_compute; reflexivity .. |].
  split; [exact Hlog | exact Hdc].
Defined.

(** C1, as stated, fails: a reply with both blocks whose [env] block is
    blank.  The configuration is extracted and written, the environment
    text is empty and no environment file is written. *)
Lemma C1_blank_env_block_not_written :
  let response :=
    text ["```docker-compose"; "FOO"; "```"; "```env"; ""; "```"] in
  let w := World ∅ ∅ [Line (lit "no")] [] [] [] in
  let w' := snd (finalize response w) in
  opens_block docker_compose_marker response
    [] (nl ++ lit "FOO" ++ nl) (nl ++ lit "```env" ++ nl ++ nl ++ lit "```")
  ∧ opens_block env_marker response
      (text ["```docker-compose"; "FOO"; "```"; ""]) (nl ++ nl) []
  ∧ extract response = (lit "FOO", [])
  ∧ fs_log w' = [FsWrite docker_compose_path (lit "FOO")]
  ∧ files w' !! env_path = None.
Proof.
  intros response w w'. repeat split; done.
Qed.

(** C1, amended. When the first [docker-compose] marker of the final
    reply opens a block FOO closed by the next fence (three backticks
    exactly) and the first [env] marker opens a block BAR in the same
    way, and FOO is not blank (or the reply has no [yaml] marker), then
    the extraction yields FOO and BAR trimmed, FOO trimmed is written to
    generated/docker-compose.yaml, and BAR trimmed is written to
    generated/.env.generated when it is not empty; when it is empty the
    configuration file is the only file written. *)
Theorem C1_blocks_extracted_and_written
    (response pre FOO post pre' BAR post' : str) (w : world) :
  opens_block docker_compose_marker response pre FOO post →
  opens_block env_marker response pre' BAR post' →
  (strip FOO = [] → contains yaml_marker response = false) →
  let w' := snd (finalize response w) in
  extract response = (strip FOO, strip BAR)
  ∧ files w' !! docker_compose_path = Some (strip FOO)
  ∧ (strip BAR ≠ [] →
       files w' !! env_path = Some (strip BAR)
       ∧ fs_log w' = fs_log w ++ [FsWrite docker_compose_path (strip FOO);
                                  FsWrite env_path (strip BAR)])
  ∧ (strip BAR = [] →
       files w' !! env_path = files w !! env_path
       ∧ fs_log w' = fs_log w ++ [FsWrite docker_compose_path (strip FOO)]).
Proof.
  intros Hdc Henv Hyaml w'.
  change docker_compose_marker with (fence ++ lit "docker-compose") in Hdc.
  change env_marker with (fence ++ lit "env") in Henv.
  apply fenced_text_block in Hdc, Henv.
  assert (extract response = (strip FOO, strip BAR)) as Hex.
  { rewrite extract_fenced_text. cbv zeta.
    change (fence ++ lit "docker-compose") with docker_compose_marker in Hdc.
    change (fence ++ lit "env") with env_marker in Henv.
    rewrite Hdc, Henv. f_equal.
    destruct (strip FOO) eqn:HFOO; [|done]. cbn [truthy].
    unfold fenced_text.
    apply contains_false in Hyaml; [|done]. by rewrite Hyaml. }
  destruct (finalize_effects response w) as (Hlog & Hfiles & _).
  fold w' in Hlog, Hfiles. rewrite Hex in Hlog, Hfiles.
  cbn [fst snd] in Hlog, Hfiles. unfold writes_of in Hlog.
  split; [done|]. split; [|split].
  - rewrite Hfiles. destruct (truthy (strip BAR)).
    + rewrite lookup_insert_ne by (symmetry; apply docker_compose_path_ne_env_path).
      apply lookup_insert_eq.
    + apply lookup_insert_eq.
  - intros HBAR. rewrite Hfiles, Hlog.
    destruct (strip BAR); [done|]. cbn [truthy]. split; [|done].
    apply lookup_insert_eq.
  - intros HBAR. rewrite Hfiles, Hlog, HBAR. cbn [truthy]. split; [|done].
    apply lookup_insert_ne, docker_compose_path_ne_env_path.
Qed.

(** The reply of the specification's example, on an empty disk. *)
Lemma C1_blocks_witness :
  let response :=
    text ["```docker-compose"; "FOO"; "```"; "```env"; "BAR"; "```"] in
  let w := World ∅ ∅ [Line (lit "no")] [] [] [] in
  let w' := snd (finalize response w) in
  extract response = (lit "FOO", lit "BAR")
  ∧ files w' !! docker_compose_path = Some (lit "FOO")
  ∧ files w' !! env_path = Some (lit "BAR").
Proof.
  intros response w w'.
  destruct (C1_blocks_extracted_and_written response
              [] (nl ++ lit "FOO" ++ nl)
              (nl ++ lit "```env" ++ nl ++ lit "BAR" ++ nl ++ lit "```")
              (text ["```docker-compose"; "FOO"; "```"; ""])
              (nl ++ lit "BAR" ++ nl) [] w)
    as (Hex & Hdc & Henv & _).
  - repeat split; done.
  - repeat split; done.
  - discriminate.
  - split; [exact Hex|]. split; [exact Hdc|].
    apply Henv. discriminate.
Defined.

(** C3, as stated, fails: the [docker-compose] marker is present but its
    block is blank, and the configuration text comes from the [yaml]
    block. *)
Lemma C3_yaml_used_with_marker_present :
  let response :=
    text ["```docker-compose"; "```"; "```yaml"; "services: {}"; "```"] in
  contains docker_compose_marker response = true
  ∧ fenced_text docker_compose_marker response = []
  ∧ fenced_text yaml_marker response = lit "services: {}"
  ∧ fst (extract response) = lit "services: {}".
Proof. intros response. repeat split; done. Qed.

(** C3, amended. Let the text of a marker be the text that follows its
    first occurrence in the reply, cut at the next occurrence of the
    same marker if there is one, then cut at the first fence of three
    backticks if there is one, and trimmed; it is empty when the marker
    does not occur ([fenced_text]).  The configuration text is the text
    of the [docker-compose] marker whenever that text is not empty; it
    is the text of the [yaml] marker exactly when the text of the
    [docker-compose] marker is empty, which is the case when the
    [docker-compose] marker is absent and also when its block is
    blank.  When the first [docker-compose] marker opens a block that
    the next fence closes, a fence of three backticks exactly, the text
    of the marker is the trimmed body of that block. *)
Theorem C3_configuration_source (response : str) :
  let from_docker_compose := fenced_text docker_compose_marker response in
  let from_yaml := fenced_text yaml_marker response in
  (from_docker_compose ≠ [] → fst (extract response) = from_docker_compose)
  ∧ (from_docker_compose = [] → fst (extract response) = from_yaml)
  ∧ (contains docker_compose_marker response = false →
       from_docker_compose = [])
  ∧ (fst (extract response) ≠ from_docker_compose →
       from_docker_compose = [] ∧ contains yaml_marker response = true)
  ∧ (∀ pre body post,
       opens_block docker_compose_marker response pre body post →
       from_docker_compose = strip body).
Proof.
  intros dc yaml.
  assert (∀ pre body post,
            opens_block docker_compose_marker response pre body post →
            dc = strip body) as Hblock.
  { intros pre body post Hopen.
    apply (fenced_text_block (lit "docker-compose") response pre body post).
    exact Hopen. }
  assert (contains docker_compose_marker response = false → dc = []) as Hdc.
  { intros Habs. apply contains_false in Habs. unfold dc, fenced_text.
    by rewrite Habs. }
  assert (contains yaml_marker response = false → yaml = []) as Hyaml.
  { intros Habs. apply contains_false in Habs. unfold yaml, fenced_text.
    by rewrite Habs. }
  rewrite extract_fenced_text. cbn [fst]. fold dc yaml. clearbody dc yaml.
  destruct dc as [|c dc]; cbn [truthy].
  - split_and!; try done.
    intros Hne. split; [done|].
    destruct (contains yaml_marker response); [done|].
    exfalso. auto.
  - split_and!; done.
Qed.

(** A block closed by four backticks that run into a second marker: the
    text is cut at that marker, and keeps the first of the backticks. *)
Example fenced_text_four_backticks :
  fenced_text docker_compose_marker
    (text ["```docker-compose"; "A"; "````docker-compose"; "B"; "```"])
  = lit "A" ++ nl ++ lit "`".
Proof. reflexivity. Qed.

(** Both sources non-empty: the [docker-compose] block wins. *)
Lemma C3_configuration_source_witness :
  let response :=
    text ["```yaml"; "a: 1"; "```"; "```docker-compose"; "b: 2"; "```"] in
  fst (extract response) = lit "b: 2".
Proof.
  intros response.
  destruct (C3_configuration_source response) as (H & _).
  apply H. discriminate.
Defined.

(** ** The prompt *)

(** C4. For a variable documentation longer than 4000 characters the
    system prompt is the fixed head, the first 4000 characters of the
    text, the truncation marker and a rest that does not depend on the
    text: texts with the same first 4000 characters give the same
    prompt.  The same holds for a sample configuration longer than 2000
    characters, whose first 2000 characters are followed by the marker
    and the final newline. *)
Theorem C4_truncation (env_vars_content sample_compose_content : str) :
  (4000 < length env_vars_content →
     system_prompt env_vars_content sample_compose_content
     = prompt_head ++ take 4000 env_vars_content ++ truncation_marker
       ++ prompt_middle ++ take 2000 sample_compose_content
       ++ truncation_marker ++ nl
     ∧ length (take 4000 env_vars_content) = 4000
     ∧ drop 4000 env_vars_content ≠ []
     ∧ ∀ other, take 4000 other = take 4000 env_vars_content →
         system_prompt other sample_compose_content
         = system_prompt env_vars_content sample_compose_content)
  ∧ (2000 < length sample_compose_content →
     system_prompt env_vars_content sample_compose_content
     = (prompt_head ++ take 4000 env_vars_content ++ truncation_marker
        ++ prompt_middle)
       ++ take 2000 sample_compose_content ++ truncation_marker ++ nl
     ∧ length (take 2000 sample_compose_content) = 2000
     ∧ drop 2000 sample_compose_content ≠ []
     ∧ ∀ other, take 2000 other = take 2000 sample_compose_content →
         system_prompt env_vars_content other
         = system_prompt env_vars_content sample_compose_content).
Proof.
  split; intros Hlen.
  - split; [done|]. split; [rewrite length_take; lia|]. split.
    + intros Hnil. apply (f_equal length) in Hnil.
      rewrite length_drop in Hnil. simpl in Hnil. lia.
    + intros other Hother. unfold system_prompt. by rewrite Hother.
  - split; [unfold system_prompt; by rewrite <- !app_assoc|].
    split; [rewrite length_take; lia|]. split.
    + intros Hnil. apply (f_equal length) in Hnil.
      rewrite length_drop in Hnil. simpl in Hnil. lia.
    + intros other Hother. unfold system_prompt. by rewrite Hother.
Qed.

(** A documentation of 4001 characters and a sample of 2001. *)
Lemma C4_truncation_witness :
  let env_vars_content := replicate 4001 "e"%char in
  let sample_compose_content := replicate 2001 "s"%char in
  system_prompt env_vars_content sample_compose_content
  = prompt_head ++ replicate 4000 "e"%char ++ truncation_marker
    ++ prompt_middle ++ replicate 2000 "s"%char ++ truncation_marker ++ nl.
Proof.
  intros e s.
  destruct (C4_truncation e s) as [H _].
  destruct H as (Heq & _).
  - unfold e. rewrite length_replicate. lia.
  - rewrite Heq. unfold e, s. by rewrite !take_replicate.
Defined.

(** ** The reference loader *)

(** C6. When the static location lacks one of its two files, the loader
    returns the contents of the two files of the repository
    documentation, an empty string standing for a missing one.  When the
    static location has both files, the loader returns their contents,
    and its file accesses are the two existence checks and the two reads
    at the static location: the other location is not touched. *)
Theorem C6_reference_loader (w : world) :
  (files w !! static_env_vars_path = None
   ∨ files w !! static_sample_compose_path = None →
     fst (load_documentation w)
     = Return (default [] (files w !! repo_env_vars_path),
               default [] (files w !! repo_sample_compose_path)))
  ∧ (∀ env_vars_content sample_compose_content,
       files w !! static_env_vars_path = Some env_vars_content →
       files w !! static_sample_compose_path = Some sample_compose_content →
       fst (load_documentation w)
       = Return (env_vars_content, sample_compose_content)
       ∧ fs_log (snd (load_documentation w))
         = fs_log w ++ [FsExists static_env_vars_path;
                        FsExists static_sample_compose_path;
                        FsRead static_env_vars_path;
                        FsRead static_sample_compose_path]).
Proof.
  destruct (files w !! static_env_vars_path) as [e1|] eqn:E1;
    destruct (files w !! static_sample_compose_path) as [s1|] eqn:E2;
    destruct (files w !! repo_env_vars_path) as [e2|] eqn:E3;
    destruct (files w !! repo_sample_compose_path) as [s2|] eqn:E4;
    (split; [intros [?|?]; try discriminate | intros ? ? [= <-] [= <-]]);
    unfold load_documentation;
    repeat progress
      (run; rewrite ?E1, ?E2, ?E3, ?E4, ?bool_decide_is_Some, ?bool_decide_is_None);
    rewrite <- ?app_assoc; done.
Qed.

(** Only the repository documentation has the variable documentation. *)
Lemma C6_reference_loader_witness :
  let w := World ∅ (<[repo_env_vars_path := lit "# Environment"]> ∅)
             [] [] [] [] in
  fst (load_documentation w) = Return (lit "# Environment", []).
Proof.
  intros w.
  destruct (C6_reference_loader w) as [H _].
  apply H. left. reflexivity.
Defined.

(** ** Trimming *)

Lemma lstrip_by_snoc (f : ascii → bool) (l : str) (c : ascii) :
  f c = false → lstrip_by f (l ++ [c]) = lstrip_by f l ++ [c].
Proof.
  intros Hc. induction l as [|a l IH]; simpl.
  - by rewrite Hc.
  - by destruct (f a).
Qed.

Lemma rstrip_by_cons (f : ascii → bool) (c : ascii) (s : str) :
  f c = false → rstrip_by f (c :: s) = c :: rstrip_by f s.
Proof.
  intros Hc. unfold rstrip_by.
  by rewrite reverse_cons, lstrip_by_snoc, reverse_snoc.
Qed.

Lemma strip_by_cons (f : ascii → bool) (c : ascii) (s : str) :
  f c = false → strip_by f (c :: s) = c :: rstrip_by f s.
Proof. intros Hc. unfold strip_by. simpl. rewrite Hc. by apply rstrip_by_cons. Qed.





(** ** Key and value of a line *)



Lemma find_char_app (c : ascii) (key value : str) :
  c ∉ key → find [c] (key ++ [c] ++ value) = Some (length key).
Proof.
  intros Hc. apply find_Some. split; [by exists key, value|].
  intros j Hj Ho. apply Hc.
  pose proof (occurs_at_lookup [c] _ j 0 c Ho eq_refl) as Hl.
  rewrite Nat.add_0_r, lookup_app_l in Hl by done.
  by eapply list_elem_of_lookup_2.
Qed.

(** [key, value = line.split('=', 1)] on a line [key=value]. *)
Lemma split_key_value (key value : str) :
  "="%char ∉ key →
  split_max 1 (lit "=") (key ++ lit "=" ++ value) = [key; value].
Proof.
  intros Hkey. cbn [split_max]. change (lit "=") with ["="%char].
  rewrite find_char_app by done.
  rewrite take_app_length. f_equal. cbn [length].
  replace (length key + 1) with (length (key ++ ["="%char]))
    by (rewrite length_app; done).
  by rewrite (app_assoc key), drop_app_length.
Qed.

(** ** The dotenv loader *)

Lemma skipped_filter (line : str) :
  skipped line ↔
  truthy (strip line) && negb (startswith line (lit "#")) = false.
Proof.
  unfold skipped. destruct (strip line) as [|c s];
    destruct (startswith line (lit "#")); cbn; split; auto;
    intros [?|?]; done.
Qed.

Lemma not_skipped_filter (line : str) :
  ¬ skipped line ↔
  truthy (strip line) && negb (startswith line (lit "#")) = true.
Proof. rewrite skipped_filter. by destruct (_ && _). Qed.

Lemma load_env_lines_skipped (line : str) (rest : list str) (w : world) :
  skipped line → load_env_lines (line :: rest) w = load_env_lines rest w.
Proof. intros H%skipped_filter. cbn [load_env_lines]. by rewrite H. Qed.

Lemma load_env_lines_passed_over (line : str) (rest : list str) (w : world) :
  passed_over line → load_env_lines (line :: rest) w = load_env_lines rest w.
Proof.
  intros [H|(key & value & Hline & Hkey & Hne)];
    [by apply load_env_lines_skipped|].
  cbn [load_env_lines].
  destruct (truthy (strip line) && negb (startswith line (lit "#"))); [|done].
  rewrite Hline, split_key_value by done. by rewrite decide_False.
Qed.

Lemma load_env_lines_before (before after : list str) (w : world) :
  Forall passed_over before →
  load_env_lines (before ++ after) w = load_env_lines after w.
Proof.
  induction 1 as [|line before Hline _ IH]; [done|].
  cbn [app]. by rewrite load_env_lines_passed_over.
Qed.

Lemma startswith_hash_strip (line : str) :
  startswith line (lit "#") = true → head (strip line) = Some "#"%char.
Proof.
  intros (rest & ->)%startswith_true. unfold strip.
  change (lit "#" ++ rest) with ("#"%char :: rest).
  by rewrite strip_by_cons.
Qed.


Lemma equals_not_in_key : "="%char ∉ OPENAI_API_KEY.
Proof. apply (bool_decide_unpack _). by vm_compute. Qed.

(** The line of the key. *)
Lemma load_env_lines_key (line value : str) (rest : list str) (w : world) :
  strip line = OPENAI_API_KEY ++ lit "=" ++ value →
  load_env_lines (line :: rest) w
  = if bool_decide (chr 0 ∈ strip_chars quote_chars value)
    then (Raise (ValueError null_byte_message), w)
    else (Return (Some (strip_chars quote_chars value)),
          set_environ
            (<[OPENAI_API_KEY := strip_chars quote_chars value]> (environ w))
            w).
Proof.
  intros Hline.
  assert (¬ skipped line) as Hns%not_skipped_filter.
  { intros [H|H]; [by rewrite Hline in H|].
    apply startswith_hash_strip in H. by rewrite Hline in H. }
  cbn [load_env_lines]. rewrite Hns, Hline.
  rewrite split_key_value by apply equals_not_in_key.
  rewrite decide_True by done. run. rewrite environ_set_key.
  by destruct (bool_decide _).
Qed.

Lemma load_env_vars_exists (w : world) (content : str) :
  files w !! env_file = Some content →
  load_env_vars w
  = load_env_lines (lines content)
      (log_fs (FsRead env_file) (log_fs (FsExists env_file) w)).
Proof.
  intros Hfile. unfold load_env_vars. fold env_file. run.
  rewrite Hfile, bool_decide_is_Some. run. by rewrite Hfile.
Qed.

(** C5, as stated, fails: the loader strips every leading and trailing
    quote character, of either kind.  A value in two layers of double
    quotes loses both, and a value between a double and a single quote
    loses both although they do not match. *)
Lemma C5_every_quote_stripped :
  let doubled := [chr 34; chr 34] ++ lit "k" ++ [chr 34; chr 34] in
  let mixed := [chr 34] ++ lit "k" ++ [chr 39] in
  let dotenv value :=
    World ∅ (<[env_file := OPENAI_API_KEY ++ lit "=" ++ value ++ nl]> ∅)
      [] [] [] [] in
  fst (load_env_vars (dotenv doubled)) = Return (Some (lit "k"))
  ∧ strip_one_matching_layer doubled = [chr 34] ++ lit "k" ++ [chr 34]
  ∧ fst (load_env_vars (dotenv mixed)) = Return (Some (lit "k"))
  ∧ strip_one_matching_layer mixed = mixed.
Proof. repeat split; done. Qed.

(** C5, amended. When the first line of the dotenv file that the loop
    does not pass over (blank lines, lines starting with a hash and
    lines of other keys are passed over) reads OPENAI_API_KEY=value once
    trimmed, take value with every leading and trailing quote character
    stripped, single or double.  If that text holds no NUL character,
    the loader returns it and stores it in the environment variable
    OPENAI_API_KEY.  If it holds a NUL character, storing it raises
    ValueError (embedded null byte): the loader returns nothing and the
    environment is left as it was. *)
Theorem C5_dotenv_key (w : world) (content : str)
    (before : list str) (line : str) (after : list str) (value : str) :
  let stripped := strip_chars quote_chars value in
  files w !! env_file = Some content →
  lines content = before ++ line :: after →
  Forall passed_over before →
  strip line = OPENAI_API_KEY ++ lit "=" ++ value →
  (chr 0 ∉ stripped →
     fst (load_env_vars w) = Return (Some stripped)
     ∧ environ (snd (load_env_vars w)) !! OPENAI_API_KEY = Some stripped)
  ∧ (chr 0 ∈ stripped →
     fst (load_env_vars w) = Raise (ValueError (lit "embedded null byte"))
     ∧ environ (snd (load_env_vars w)) = environ w).
Proof.
  intros stripped Hfile Hlines Hbefore Hline.
  rewrite (load_env_vars_exists w content Hfile), Hlines.
  rewrite load_env_lines_before by done.
  rewrite (load_env_lines_key line value) by done. fold stripped.
  split; intros Hnul.
  - rewrite bool_decide_eq_false_2 by done.
    split; [done|]. cbn [snd environ set_environ]. apply lookup_insert_eq.
  - by rewrite bool_decide_eq_true_2 by done.
Qed.

(** A comment, a blank line and another key before the line of the
    key, whose value is in single quotes; and a key with a NUL between
    its quotes. *)
Lemma C5_dotenv_key_witness :
  let content :=
    text ["# settings"; ""; "PORT=8080"; "OPENAI_API_KEY='sk-1' "; "X=1"] in
  let w := World ∅ (<[env_file := content]> ∅) [] [] [] [] in
  let content0 := lit "OPENAI_API_KEY='sk" ++ [chr 0] ++ lit "1'" in
  let w0 := World ∅ (<[env_file := content0]> ∅) [] [] [] [] in
  (fst (load_env_vars w) = Return (Some (lit "sk-1"))
   ∧ environ (snd (load_env_vars w)) !! OPENAI_API_KEY = Some (lit "sk-1"))
  ∧ (fst (load_env_vars w0) = Raise (ValueError (lit "embedded null byte"))
     ∧ environ (snd (load_env_vars w0)) = ∅).
Proof.
  intros content w content0 w0. split.
  - apply (C5_dotenv_key w content
             [lit "# settings" ++ nl; nl; lit "PORT=8080" ++ nl]
             (lit "OPENAI_API_KEY='sk-1' " ++ nl) [lit "X=1"]
             (lit "'sk-1'")).
    + reflexivity.
    + reflexivity.
    + apply Forall_cons_2; [left; right; reflexivity|].
      apply Forall_cons_2; [left; left; reflexivity|].
      apply Forall_cons_2; [|apply Forall_nil_2].
      right. exists (lit "PORT"), (lit "8080").
      split; [reflexivity|]. split; [|discriminate].
      apply (bool_decide_unpack _). by vm_compute.
    + reflexivity.
    + apply (bool_decide_unpack _). by vm_compute.
  - apply (C5_dotenv_key w0 content0 [] content0 []
             (lit "'sk" ++ [chr 0] ++ lit "1'")).
    + reflexivity.
    + reflexivity.
    + apply Forall_nil_2.
    + reflexivity.
    + apply (bool_decide_unpack _). by vm_compute.
Defined.

(** ** One pass of the loop *)

(** [finalize] ends normally, or at the end of input or an interrupt
    of its question; it makes no call. *)
Lemma finalize_outcome (generation_response : str) (w : world) :
  fst (finalize generation_response w) = Return ()
  ∨ fst (finalize generation_response w) = Raise EOFError
  ∨ fst (finalize generation_response w) = Raise KeyboardInterrupt.
Proof.
  unfold finalize. destruct (extract generation_response) as [d e].
  unfold save. run.
  destruct (truthy e); run;
    destruct (stdin w) as [|[show_files|] rest]; run; auto;
    destruct (bool_decide _); run; auto.
Qed.

(** The pass in which the sentinel appears: [finalize] runs on the reply
    to the final request. *)
Lemma turn_final_reply (api : nat → request → response)
    (api_key : str) (messages : list message) (w : world)
    (ai_response generation_response : str) :
  let req1 := turn_request api_key messages in
  let req2 := final_request api_key messages ai_response in
  let w1 := emit (nl ++ lit "AI: " ++ ai_response) (log_api req1 w) in
  api (length (api_log w)) req1 = Reply ai_response →
  contains sentinel ai_response = true →
  api (S (length (api_log w))) req2 = Reply generation_response →
  turn api api_key messages w
  = (_ ← finalize generation_response; mret Break) (log_api req2 w1).
Proof.
  intros req1 req2 w1 H1 Hs H2.
  unfold w1, req1, req2, turn_request, final_request in *.
  unfold turn, chat_create. run. rewrite H1. run. rewrite Hs. run.
  rewrite length_app. cbn [length]. rewrite Nat.add_1_r, H2. by run.
Qed.

(** The body of the loop under its [try], by the replies of the
    service. *)
Lemma attempt_cases (api : nat → request → response)
    (api_key : str) (messages : list message) (w : world) :
  let n := length (api_log w) in
  let req1 := turn_request api_key messages in
  let attempt := try_except (turn api api_key messages) on_error w in
  match api n req1 with
  | Failure msg =>
      attempt = (Return Break, emit (error_line msg) (log_api req1 w))
  | Interrupted => attempt = (Raise KeyboardInterrupt, log_api req1 w)
  | Reply ai_response =>
      let w1 := emit (nl ++ lit "AI: " ++ ai_response) (log_api req1 w) in
      if contains sentinel ai_response then
        let req2 := final_request api_key messages ai_response in
        match api (S n) req2 with
        | Failure msg =>
            attempt = (Return Break, emit (error_line msg) (log_api req2 w1))
        | Interrupted => attempt = (Raise KeyboardInterrupt, log_api req2 w1)
        | Reply generation_response =>
            (fst attempt = Return Break ∨ fst attempt = Raise KeyboardInterrupt)
            ∧ api_log (snd attempt) = api_log w ++ [req1; req2]
            ∧ stdin (snd attempt)
              = stdin (snd (finalize generation_response (log_api req2 w1)))
        end
      else
        attempt
        = (Return (Continue (messages ++ [Message Assistant ai_response])), w1)
  end.
Proof.
  intros n req1 attempt. unfold attempt, n, req1, turn_request.
  destruct (api (length (api_log w)) _) as [a|msg|] eqn:H1.
  - destruct (contains sentinel a) eqn:Hs.
    + unfold final_request.
      destruct (api (S (length (api_log w))) _) as [g|msg|] eqn:H2.
      * run_loop. rewrite H1. run. rewrite Hs. run.
        rewrite length_app. cbn [length]. rewrite Nat.add_1_r, H2. run.
        set (w2 := log_api _ (emit _ (log_api _ w))).
        destruct (finalize_effects g w2) as (_ & _ & Hapi).
        pose proof (finalize_outcome g w2) as Hout.
        destruct (finalize g w2) as [r w3]. cbn [fst snd] in *.
        destruct Hout as [-> | [-> | ->]];
          cbn [is_Exception fst snd api_log stdin emit];
          rewrite Hapi; unfold w2; run; rewrite <- ?app_assoc; auto.
      * run_loop. rewrite H1. run. rewrite Hs. run.
        rewrite length_app. cbn [length]. rewrite Nat.add_1_r, H2. by run.
      * run_loop. rewrite H1. run. rewrite Hs. run.
        rewrite length_app. cbn [length]. rewrite Nat.add_1_r, H2. by run.
    + run_loop. rewrite H1. run. rewrite Hs. by run.
  - run_loop. rewrite H1. by run.
  - run_loop. rewrite H1. by run.
Qed.

(** ** The loop *)

Lemma conversation_S (api : nat → request → response) (fuel : nat)
    (api_key : str) (messages : list message) (w : world) :
  conversation api (S fuel) api_key messages w =
  match stdin w with
  | [] => (Raise EOFError, emit you_prompt w)
  | CtrlC :: rest =>
      (Raise KeyboardInterrupt, set_stdin rest (emit you_prompt w))
  | Line user_input :: rest =>
      let w1 := set_stdin rest (emit you_prompt w) in
      if bool_decide (lower user_input ∈ exit_words)
      then (Return (), emit (lit "Exiting generator.") w1)
      else
        match try_except
                (turn api api_key (messages ++ [Message User user_input]))
                on_error w1 with
        | (Return Break, w2) => (Return (), w2)
        | (Return (Continue messages'), w2) =>
            conversation api fuel api_key messages' w2
        | (Raise e, w2) => (Raise e, w2)
        | (OutOfFuel, w2) => (OutOfFuel, w2)
        end
  end.
Proof.
  cbn [conversation]. run. fold you_prompt exit_words.
  destruct (stdin w) as [|[user_input|] rest]; run; try done.
  destruct (bool_decide (lower user_input ∈ exit_words)); run; [done|].
  by destruct (try_except _ _ _) as [[[]| |] w2].
Qed.

Lemma error_line_not_in (msg x y : str) (out : list str) :
  error_line msg ∉ out → error_line msg ∉ (nl ++ x) :: (nl ++ y) :: out.
Proof. intros Hout [?|[?|?]%elem_of_cons]%elem_of_cons; done. Qed.

Lemma conversation_failure (api : nat → request → response) (fuel : nat) :
  ∀ (api_key : str) (messages : list message) (w : world),
    let c := conversation api fuel api_key messages w in
    api_log w `prefix_of` api_log (snd c)
    ∧ ∀ i req msg,
        api_log (snd c) !! i = Some req → length (api_log w) ≤ i →
        api i req = Failure msg →
        ends_on_failure w (snd c) (fst c) i msg.
Proof.
  induction fuel as [|fuel IH]; intros api_key messages w.
  { split; [done|]. intros i req msg Hi Hle _. cbn in Hi.
    apply lookup_lt_Some in Hi. lia. }
  assert (∀ w' : world, api_log w' = api_log w →
            ∀ i (req : request), api_log w' !! i = Some req →
              length (api_log w) ≤ i → False) as Hsame.
  { intros w' Heq i req Hi Hle. rewrite Heq in Hi.
    apply lookup_lt_Some in Hi. lia. }
  cbv zeta. rewrite conversation_S.
  destruct (stdin w) as [|[user_input|] rest].
  - split; [done|]. intros i req msg Hi Hle _. by destruct (Hsame _ eq_refl i req).
  - cbv zeta. destruct (bool_decide _).
    + split; [done|]. intros i req msg Hi Hle _.
      by destruct (Hsame _ eq_refl i req).
    + set (w1 := set_stdin rest (emit you_prompt w)).
      set (messages1 := messages ++ [Message User user_input]).
      pose proof (attempt_cases api api_key messages1 w1) as Hcases.
      cbv zeta in Hcases.
      change (api_log w1) with (api_log w) in Hcases.
      set (req1 := turn_request api_key messages1) in *.
      destruct (api (length (api_log w)) req1) as [a|m|] eqn:H1.
      * destruct (contains sentinel a) eqn:Hs.
        -- set (req2 := final_request api_key messages1 a) in *.
           assert (∀ (w' : world) i (req : request),
                     api_log w' = api_log w ++ [req1; req2] →
                     api_log w' !! i = Some req → length (api_log w) ≤ i →
                     (i = length (api_log w) ∧ req = req1)
                     ∨ (i = S (length (api_log w)) ∧ req = req2)) as Htwo.
           { intros w' i req Heq Hi Hle. rewrite Heq in Hi.
             rewrite lookup_app_r in Hi by done.
             destruct (i - length (api_log w)) as [|[|k]] eqn:Hk;
               cbn in Hi; simplify_eq; [left | right]; split; try done; lia. }
           destruct (api (S (length (api_log w))) req2) as [g|m|] eqn:H2.
           ++ destruct Hcases as (Hout & Hlog & _).
              destruct (try_except _ _ w1) as [r w2]. cbn [fst snd] in *.
              assert (∀ i (req : request) msg,
                        api_log w2 !! i = Some req → length (api_log w) ≤ i →
                        api i req = Failure msg → False) as Hno.
              { intros i req msg Hi Hle Hfail.
                destruct (Htwo w2 i req Hlog Hi Hle) as [[-> ->]|[-> ->]];
                  congruence. }
              destruct Hout as [-> | ->]; cbn [fst snd];
                (split; [rewrite Hlog; by apply prefix_app_r|]);
                intros i req msg Hi Hle Hfail;
                by destruct (Hno i req msg).
           ++ rewrite Hcases. cbn [fst snd].
              set (w2 := emit (error_line m) _).
              assert (api_log w2 = api_log w ++ [req1; req2]) as Hlog
                by (cbn; by rewrite <- app_assoc).
              split; [rewrite Hlog; by apply prefix_app_r|].
              intros i req msg Hi Hle Hfail.
              destruct (Htwo w2 i req Hlog Hi Hle)
                as [[-> ->]|[-> ->]]; [congruence|].
              assert (msg = m) as -> by congruence.
              repeat split; try done.
              ** rewrite Hlog, length_app. cbn. lia.
              ** exists [you_prompt; nl ++ lit "AI: " ++ a]. split.
                 --- cbn. by rewrite <- !app_assoc.
                 --- by apply error_line_not_in, not_elem_of_nil.
           ++ rewrite Hcases. cbn [fst snd].
              set (w2 := log_api req2 _).
              assert (api_log w2 = api_log w ++ [req1; req2]) as Hlog
                by (cbn; by rewrite <- app_assoc).
              split; [rewrite Hlog; by apply prefix_app_r|].
              intros i req msg Hi Hle Hfail.
              destruct (Htwo w2 i req Hlog Hi Hle)
                as [[-> ->]|[-> ->]]; congruence.
        -- rewrite Hcases.
           set (w2 := emit _ (log_api req1 w1)).
           destruct (IH api_key (messages1 ++ [Message Assistant a]) w2)
             as [Hpre Hfail].
           set (c := conversation api fuel api_key _ w2) in *.
           assert (api_log w2 = api_log w ++ [req1]) as Hw2 by done.
           split.
           { etrans; [|exact Hpre]. rewrite Hw2. by apply prefix_app_r. }
           intros i req msg Hi Hle Hf.
           destruct (decide (i = length (api_log w))) as [->|Hne].
           { assert (api_log (snd c) !! length (api_log w) = Some req1) as Hr.
             { eapply prefix_lookup_Some; [|exact Hpre].
               rewrite Hw2. by apply list_lookup_middle. }
             congruence. }
           destruct (Hfail i req msg Hi) as (Hr & Hlen & Hfs & Hfiles & out & Hout & Hnot);
             [rewrite Hw2, length_app; cbn; lia | done |].
           repeat split; try done.
           exists (you_prompt :: (nl ++ lit "AI: " ++ a) :: out). split.
           ++ rewrite Hout. cbn. by rewrite <- !app_assoc.
           ++ by apply error_line_not_in.
      * rewrite Hcases. cbn [fst snd].
        assert (api_log (emit (error_line m) (log_api req1 w1))
                = api_log w ++ [req1]) as Hlog by done.
        split; [rewrite Hlog; by apply prefix_app_r|].
        intros i req msg Hi Hle Hfail. rewrite Hlog in Hi.
        rewrite lookup_app_r in Hi by done.
        destruct (i - length (api_log w)) as [|k] eqn:Hk; [|by destruct k].
        cbn in Hi. simplify_eq. assert (i = length (api_log w)) as -> by lia.
        assert (msg = m) as -> by congruence.
        repeat split; try done.
        -- rewrite Hlog, length_app. cbn. lia.
        -- exists [you_prompt]. split; [cbn; by rewrite <- !app_assoc|].
           intros [?|[]%elem_of_nil]%elem_of_cons. done.
      * rewrite Hcases. cbn [fst snd].
        assert (api_log (log_api req1 w1) = api_log w ++ [req1]) as Hlog by done.
        split; [rewrite Hlog; by apply prefix_app_r|].
        intros i req msg Hi Hle Hfail. rewrite Hlog in Hi.
        rewrite lookup_app_r in Hi by done.
        destruct (i - length (api_log w)) as [|k] eqn:Hk; [|by destruct k].
        cbn in Hi. simplify_eq. assert (i = length (api_log w)) as -> by lia.
        congruence.
  - split; [done|]. intros i req msg Hi Hle _. by destruct (Hsame _ eq_refl i req).
Qed.

(** C7. When a call made by the loop raises an error, in a conversation
    turn or as the final request, the loop returns normally (the error
    is caught), the failed call is the last call made (no retry), no
    file was created or written and the files are as before, and the
    line "Error: " with the message is the last line printed and occurs
    once in what the loop printed. *)
Theorem C7_model_error_ends_loop (api : nat → request → response)
    (fuel : nat) (api_key : str) (messages : list message) (w : world)
    (i : nat) (req : request) (msg : str) :
  let c := conversation api fuel api_key messages w in
  api_log (snd c) !! i = Some req →
  length (api_log w) ≤ i →
  api i req = Failure msg →
  fst c = Return ()
  ∧ length (api_log (snd c)) = S i
  ∧ fs_log (snd c) = fs_log w
  ∧ files (snd c) = files w
  ∧ ∃ out, stdout (snd c) = stdout w ++ out ++ [lit "Error: " ++ msg]
           ∧ lit "Error: " ++ msg ∉ out.
Proof.
  intros c Hi Hle Hfail.
  destruct (conversation_failure api fuel api_key messages w) as [_ H].
  exact (H i req msg Hi Hle Hfail).
Qed.

(** A first call that is answered and a second call that fails. *)
Lemma C7_model_error_witness :
  let api := λ (n : nat) (_ : request),
    match n with
    | 0 => Reply (lit "Which database do you prefer?")
    | _ => Failure (lit "rate limit reached")
    end in
  let w := World ∅ ∅ [Line (lit "hello"); Line (lit "postgres");
                      Line (lit "redis")] [] [] [] in
  let c := conversation api 4 (lit "sk-1") [] w in
  fst c = Return () ∧ length (api_log (snd c)) = 2 ∧ fs_log (snd c) = [].
Proof.
  intros api w c.
  destruct (C7_model_error_ends_loop api 4 (lit "sk-1") [] w 1
              (turn_request (lit "sk-1")
                 [Message User (lit "hello");
                  Message Assistant (lit "Which database do you prefer?");
                  Message User (lit "postgres")])
              (lit "rate limit reached"))
    as (Hr & Hlen & Hfs & _).
  - reflexivity.
  - cbn. lia.
  - reflexivity.
  - split; [exact Hr|]. split; [exact Hlen | exact Hfs].
Defined.

(** ** Outcomes *)







(** ** The exit status *)






(** ** The dotenv loader in the script *)




(** * The runs of the loop *)

(** The pass in which the sentinel appears, under the [try] of the loop:
    the [except] clause sees what [finalize] raises. *)
Lemma attempt_final_reply (api : nat → request → response)
    (api_key : str) (messages : list message) (w : world)
    (ai_response generation_response : str) (r : outcome unit) (w' : world) :
  api (length (api_log w)) (turn_request api_key messages)
  = Reply ai_response →
  contains sentinel ai_response = true →
  api (S (length (api_log w))) (final_request api_key messages ai_response)
  = Reply generation_response →
  finalize generation_response
    (log_api (final_request api_key messages ai_response)
       (emit (nl ++ lit "AI: " ++ ai_response)
          (log_api (turn_request api_key messages) w)))
  = (r, w') →
  try_except (turn api api_key messages) on_error w
  = match r with
    | Return _ => (Return Break, w')
    | Raise e =>
        if is_Exception e
        then (Return Break, emit (error_line (exn_str e)) w')
        else (Raise e, w')
    | OutOfFuel => (OutOfFuel, w')
    end.
Proof.
  intros H1 Hs H2 Hfin. unfold try_except.
  rewrite (turn_final_reply api api_key messages w _ _ H1 Hs H2).
  run. rewrite Hfin.
  destruct r as [[]|e|]; [done| |done].
  destruct (is_Exception e); [|done]. unfold on_error. by run.
Qed.

(** Every run of the loop of the program is one of [loop_run]. *)
Lemma conversation_loop_run (api : nat → request → response) (fuel : nat) :
  ∀ (api_key : str) (messages : list message) (w : world),
    length (stdin w) < fuel →
    loop_run api api_key messages w
      (fst (conversation api fuel api_key messages w))
      (snd (conversation api fuel api_key messages w)).
Proof.
  induction fuel as [|fuel IH]; intros api_key messages w Hfuel; [lia|].
  rewrite conversation_S.
  destruct (stdin w) as [|[user_input|] rest] eqn:Hstdin; cbn [fst snd].
  - by apply run_end_of_input.
  - cbv zeta. fold (asked rest w). case_bool_decide as Hexit; cbn [fst snd].
    { by eapply run_exit. }
    set (messages1 := messages ++ [Message User user_input]).
    pose proof (attempt_cases api api_key messages1 (asked rest w)) as Hcases.
    cbv zeta in Hcases.
    change (api_log (asked rest w)) with (api_log w) in *.
    destruct (api (length (api_log w)) _) as [a|m|] eqn:H1.
    + destruct (contains sentinel a) eqn:Hs.
      * destruct (api (S (length (api_log w))) _) as [g|m|] eqn:H2.
        -- clear Hcases.
           destruct (finalize g
                       (log_api (final_request api_key messages1 a)
                          (answered api_key messages user_input a rest w)))
             as [r w'] eqn:Hfin.
           pose proof (finalize_outcome g
                         (log_api (final_request api_key messages1 a)
                            (answered api_key messages user_input a rest w)))
             as Hout.
           rewrite (attempt_final_reply api api_key messages1 (asked rest w)
                      a g r w' H1 Hs H2 Hfin).
           pose proof (run_finalize api api_key messages w user_input rest
                         a g r w' Hstdin Hexit H1 Hs H2 Hfin) as Hrun.
           rewrite Hfin in Hout. cbn [fst] in Hout.
           by destruct Hout as [-> | [-> | ->]].
        -- rewrite Hcases. by eapply run_final_failure.
        -- rewrite Hcases. by eapply run_final_interrupt.
      * rewrite Hcases. eapply run_continue; eauto.
        apply IH. cbn in Hfuel |- *. lia.
    + rewrite Hcases. by eapply run_call_failure.
    + rewrite Hcases. by eapply run_call_interrupt.
  - by apply run_interrupt.
Qed.

Lemma run_conversation_loop_run (api : nat → request → response)
    (api_key : str) (messages : list message) (w : world) :
  loop_run api api_key messages w
    (fst (run_conversation api api_key messages w))
    (snd (run_conversation api api_key messages w)).
Proof. apply conversation_loop_run. lia. Qed.

(** The reference loader returns, and leaves everything but the trace of
    file operations as it was; it writes no file. *)
Lemma load_documentation_world (w : world) :
  ∃ contents w0 ops,
    load_documentation w = (Return contents, w0)
    ∧ environ w0 = environ w ∧ files w0 = files w ∧ stdin w0 = stdin w
    ∧ stdout w0 = stdout w ∧ api_log w0 = api_log w
    ∧ fs_log w0 = fs_log w ++ ops ∧ read_only ops.
Proof.
  assert (∀ ops, (∀ op, op ∈ ops → ∃ p, op = FsExists p ∨ op = FsRead p) →
                 read_only ops) as Hro.
  { intros ops Hops path content Hin.
    destruct (Hops _ Hin) as [p [?|?]]; discriminate. }
  destruct (files w !! static_env_vars_path) as [e1|] eqn:E1;
    destruct (files w !! static_sample_compose_path) as [s1|] eqn:E2;
    destruct (files w !! repo_env_vars_path) as [e2|] eqn:E3;
    destruct (files w !! repo_sample_compose_path) as [s2|] eqn:E4;
    unfold load_documentation;
    repeat progress
      (run; rewrite ?E1, ?E2, ?E3, ?E4, ?bool_decide_is_Some, ?bool_decide_is_None);
    eexists _, _, _; (split; [reflexivity|]);
    cbn [environ files stdin stdout api_log fs_log log_fs];
    rewrite <- ?app_assoc; cbn [app];
    repeat (split; [reflexivity|]); apply Hro; intros op Hin;
    repeat (apply elem_of_cons in Hin as [-> | Hin]; [eauto|]);
    by apply elem_of_nil in Hin.
Qed.

Lemma handled_world (r : outcome unit) (w : world) :
  api_log (snd (handled r w)) = api_log w
  ∧ fs_log (snd (handled r w)) = fs_log w
  ∧ files (snd (handled r w)) = files w
  ∧ stdin (snd (handled r w)) = stdin w
  ∧ environ (snd (handled r w)) = environ w.
Proof. destruct r as [[]|[]|]; done. Qed.

Lemma finalize_stdin (generation_response : str) (w : world) :
  length (stdin (snd (finalize generation_response w))) ≤ length (stdin w)
  ∧ environ (snd (finalize generation_response w)) = environ w.
Proof.
  unfold finalize. destruct (extract generation_response) as [d e].
  unfold save. run.
  destruct (truthy e); run;
    destruct (stdin w) as [|[show_files|] rest] eqn:Hstdin; run;
    try destruct (bool_decide _); run; rewrite ?Hstdin; cbn [length];
    split; (lia || done).
Qed.

Lemma growing_cons (req : request) (reqs : list request) :
  Forall (λ req', req_messages req `prefix_of` req_messages req') reqs →
  growing reqs → growing (req :: reqs).
Proof.
  intros Hall Hreqs [|i] [|j] req_i req_j Hle Hi Hj; simplify_eq/=.
  - done.
  - rewrite Forall_lookup in Hall. by eapply Hall.
  - lia.
  - eapply (Hreqs i j); [lia|done..].
Qed.

Lemma well_formed_request_prefix (api_key : str)
    (messages messages' : list message) (req : request) :
  messages `prefix_of` messages' →
  well_formed_request api_key messages' req →
  well_formed_request api_key messages req.
Proof.
  intros Hpre (?&?&?&?). repeat split; [done..| |done]. by etrans.
Qed.

Lemma well_formed_turn_request (api_key : str) (messages : list message)
    (user_input : str) :
  well_formed_request api_key messages
    (turn_request api_key (messages ++ [Message User user_input])).
Proof. repeat split; [by apply prefix_app_r | by left]. Qed.

Lemma well_formed_final_request (api_key : str) (messages : list message)
    (user_input ai_response : str) :
  well_formed_request api_key messages
    (final_request api_key (messages ++ [Message User user_input])
       ai_response).
Proof.
  repeat split; [|by right]. cbn. rewrite <- !app_assoc.
  by apply prefix_app_r.
Qed.

Lemma growing_turn_final (api_key : str) (messages : list message)
    (ai_response : str) :
  growing [turn_request api_key messages;
           final_request api_key messages ai_response].
Proof.
  intros [|[|i]] [|[|j]] req_i req_j Hle Hi Hj; simplify_eq/=;
    try done; try lia.
  rewrite <- app_assoc. by apply prefix_app_r.
Qed.

Lemma growing_short (reqs : list request) : length reqs ≤ 1 → growing reqs.
Proof.
  destruct reqs as [|req [|? ?]]; cbn; try lia;
    intros _ [|i] [|j] req_i req_j Hle Hi Hj; by simplify_eq/=.
Qed.

Lemma final_last_short (reqs : list request) :
  length reqs ≤ 1 → final_last reqs.
Proof.
  intros Hlen i req Hi Hlt. apply lookup_lt_Some in Hi. lia.
Qed.

(** The requests of a run: appended to the log in order, with the key
    and the model of the loop, each carrying the transcript of the ones
    before it; at most one more than the lines read. *)
Lemma loop_run_requests (api : nat → request → response) (api_key : str)
    (messages : list message) (w : world) (r : outcome unit) (w' : world) :
  loop_run api api_key messages w r w' →
  ∃ new,
    api_log w' = api_log w ++ new
    ∧ Forall (well_formed_request api_key messages) new
    ∧ growing new
    ∧ final_last new
    ∧ length new + length (stdin w') ≤ S (length (stdin w)).
Proof.
  induction 1 as
    [ messages w Hin | messages w rest Hin | messages w u rest Hin Hex
    | messages w u rest msg Hin Hex H1 | messages w u rest Hin Hex H1
    | messages w u rest a r w' Hin Hex H1 Hs Hrun IH
    | messages w u rest a msg Hin Hex H1 Hs H2
    | messages w u rest a Hin Hex H1 Hs H2
    | messages w u rest a g r w' Hin Hex H1 Hs H2 Hfin ].
  - exists []. rewrite app_nil_r.
    cbn [asked api_log stdin emit log_api set_stdin]. rewrite ?Hin.
    split_and!; [done | done | apply growing_short; cbn; lia
                | apply final_last_short; cbn; lia | cbn; lia].
  - exists []. rewrite app_nil_r.
    cbn [asked api_log stdin emit log_api set_stdin]. rewrite ?Hin.
    split_and!; [done | done | apply growing_short; cbn; lia
                | apply final_last_short; cbn; lia | cbn; lia].
  - exists []. rewrite app_nil_r.
    cbn [asked api_log stdin emit log_api set_stdin]. rewrite ?Hin.
    split_and!; [done | done | apply growing_short; cbn; lia
                | apply final_last_short; cbn; lia | cbn; lia].
  - eexists [_].
    cbn [asked api_log stdin emit log_api set_stdin]. rewrite ?Hin.
    split_and!;
      [ done | repeat constructor; apply well_formed_turn_request
      | apply growing_short; cbn; lia | apply final_last_short; cbn; lia | cbn; lia ].
  - eexists [_].
    cbn [asked api_log stdin emit log_api set_stdin]. rewrite ?Hin.
    split_and!;
      [ done | repeat constructor; apply well_formed_turn_request
      | apply growing_short; cbn; lia | apply final_last_short; cbn; lia | cbn; lia ].
  - destruct IH as (new & Hlog & Hwf & Hgrow & Hlast & Hlen).
    exists (turn_request api_key (messages ++ [Message User u]) :: new).
    rewrite Hlog, Hin. cbn [answered asked api_log stdin emit log_api set_stdin]
      in *.
    rewrite <- app_assoc.
    split_and!.
    + done.
    + constructor; [apply well_formed_turn_request|].
      eapply Forall_impl; [exact Hwf|]. intros req.
      apply well_formed_request_prefix.
      rewrite <- app_assoc. by apply prefix_app_r.
    + apply growing_cons; [|done].
      eapply Forall_impl; [exact Hwf|]. intros req (_ & _ & Hpre & _).
      etrans; [|exact Hpre]. by apply prefix_app_r.
    + intros [|i] req Hi Hlt; simplify_eq/=; [done|].
      eapply Hlast; [done|lia].
    + cbn [length]. lia.
  - eexists [_; _]. rewrite Hin.
    cbn [answered asked api_log stdin emit log_api set_stdin].
    rewrite <- app_assoc.
    split_and!.
    + done.
    + constructor; [apply well_formed_turn_request|].
      constructor; [apply well_formed_final_request|]. constructor.
    + apply growing_turn_final.
    + intros [|[|i]] req Hi Hlt; simplify_eq/=; first [done|lia].
    + cbn [length]. lia.
  - eexists [_; _]. rewrite Hin.
    cbn [answered asked api_log stdin emit log_api set_stdin].
    rewrite <- app_assoc.
    split_and!.
    + done.
    + constructor; [apply well_formed_turn_request|].
      constructor; [apply well_formed_final_request|]. constructor.
    + apply growing_turn_final.
    + intros [|[|i]] req Hi Hlt; simplify_eq/=; first [done|lia].
    + cbn [length]. lia.
  - destruct (handled_world r w') as (-> & _ & _ & -> & _).
    pose proof (finalize_effects g
      (log_api (final_request api_key (messages ++ [Message User u]) a)
         (answered api_key messages u a rest w))) as (_ & _ & Hlog).
    pose proof (finalize_stdin g
      (log_api (final_request api_key (messages ++ [Message User u]) a)
         (answered api_key messages u a rest w))) as [Hlen _].
    rewrite Hfin in Hlog, Hlen. cbn [snd] in Hlog, Hlen.
    eexists [_; _]. rewrite Hlog, Hin.
    cbn [answered asked api_log stdin emit log_api set_stdin] in *.
    rewrite <- app_assoc.
    split_and!.
    + done.
    + constructor; [apply well_formed_turn_request|].
      constructor; [apply well_formed_final_request|]. constructor.
    + apply growing_turn_final.
    + intros [|[|i]] req Hi Hlt; simplify_eq/=; first [done|lia].
    + cbn [length]. lia.
Qed.

(** What a run leaves on the disk: nothing, or the texts extracted from
    the reply to a final request, which follows a reply with the
    sentinel. The environment is never touched. *)
Lemma loop_run_writes (api : nat → request → response) (api_key : str)
    (messages : list message) (w : world) (r : outcome unit) (w' : world) :
  loop_run api api_key messages w r w' →
  environ w' = environ w
  ∧ ((fs_log w' = fs_log w ∧ files w' = files w)
     ∨ ∃ n req1 ai_response req2 generation_response,
         api n req1 = Reply ai_response
         ∧ contains sentinel ai_response = true
         ∧ api (S n) req2 = Reply generation_response
         ∧ req_max_tokens req2 = 2000
         ∧ fs_log w'
           = fs_log w ++ writes_of (fst (extract generation_response))
                           (snd (extract generation_response))
         ∧ files w'
           = saved (fst (extract generation_response))
               (snd (extract generation_response)) (files w)).
Proof.
  induction 1 as
    [ messages w Hin | messages w rest Hin | messages w u rest Hin Hex
    | messages w u rest msg Hin Hex H1 | messages w u rest Hin Hex H1
    | messages w u rest a r w' Hin Hex H1 Hs Hrun IH
    | messages w u rest a msg Hin Hex H1 Hs H2
    | messages w u rest a Hin Hex H1 Hs H2
    | messages w u rest a g r w' Hin Hex H1 Hs H2 Hfin ];
    try (split; [done | by left]).
  - exact IH.
  - destruct (handled_world r w') as (_ & -> & -> & _ & ->).
    pose proof (finalize_effects g
      (log_api (final_request api_key (messages ++ [Message User u]) a)
         (answered api_key messages u a rest w))) as (Hfs & Hfiles & _).
    pose proof (finalize_stdin g
      (log_api (final_request api_key (messages ++ [Message User u]) a)
         (answered api_key messages u a rest w))) as [_ Henv].
    rewrite Hfin in Hfs, Hfiles, Henv. cbn [snd] in Hfs, Hfiles, Henv.
    split; [done|]. right.
    exists (length (api_log w)),
      (turn_request api_key (messages ++ [Message User u])), a,
      (final_request api_key (messages ++ [Message User u]) a), g.
    by split_and!.
Qed.

(** The runs of [generate_docker_compose] are the runs of the loop
    started with the system message and the greeting, after the
    reference texts were loaded and the greeting printed. *)
Lemma generate_docker_compose_loop_run (api : nat → request → response)
    (api_key : str) (reference_source : reference) (env_vars_in_file : bool)
    (w : world) :
  ∃ env_vars_content sample_compose_content w0 ops,
    load_documentation w
    = (Return (env_vars_content, sample_compose_content), w0)
    ∧ environ w0 = environ w ∧ files w0 = files w ∧ stdin w0 = stdin w
    ∧ stdout w0 = stdout w ∧ api_log w0 = api_log w
    ∧ fs_log w0 = fs_log w ++ ops ∧ read_only ops
    ∧ loop_run api api_key (seed env_vars_content sample_compose_content)
        (emit (lit "AI: " ++ initial_message) w0)
        (fst (generate_docker_compose api api_key reference_source
                env_vars_in_file w))
        (snd (generate_docker_compose api api_key reference_source
                env_vars_in_file w)).
Proof.
  destruct (load_documentation_world w)
    as ([e s] & w0 & ops & Hload & Henv & Hfiles & Hin & Hout & Hlog & Hfs & Hro).
  exists e, s, w0, ops. split_and!; try done.
  unfold generate_docker_compose. run. rewrite Hload. run.
  apply run_conversation_loop_run.
Qed.

(** * Further properties of the conversation *)

(** X1. An exit word at the first question, in any case of letters, ends
    [generate_docker_compose] normally: no request is made, no file is
    written or changed, the line is consumed, and the greeting, the
    question and the farewell are what was printed (lines 111 to 119). *)
Theorem X1_exit_word_ends_run (api : nat → request → response)
    (api_key : str) (reference_source : reference) (env_vars_in_file : bool)
    (w : world) (user_input : str) (rest : list event) :
  let res := generate_docker_compose api api_key reference_source
               env_vars_in_file w in
  stdin w = Line user_input :: rest →
  lower user_input ∈ [lit "exit"; lit "quit"; lit "q"] →
  fst res = Return ()
  ∧ api_log (snd res) = api_log w
  ∧ files (snd res) = files w
  ∧ (∃ ops, fs_log (snd res) = fs_log w ++ ops ∧ read_only ops)
  ∧ stdin (snd res) = rest
  ∧ stdout (snd res)
    = stdout w ++ [lit "AI: " ++ initial_message; nl ++ lit "You: ";
                   lit "Exiting generator."].
Proof.
  intros res Hin Hexit. unfold res.
  destruct (load_documentation_world w)
    as ([e s] & w0 & ops & Hload & Henv & Hfiles & Hin0 & Hout
        & Hlog & Hfs & Hro).
  unfold generate_docker_compose. run. rewrite Hload. run.
  unfold run_conversation. rewrite conversation_S.
  cbn [stdin emit]. rewrite Hin0, Hin. cbv zeta.
  rewrite bool_decide_eq_true_2 by exact Hexit.
  cbn [fst snd api_log files fs_log stdin stdout emit set_stdin].
  rewrite Hout, <- !app_assoc. split_and!; try done. by exists ops.
Qed.

Lemma X1_exit_word_witness :
  let api := λ (_ : nat) (_ : request), Failure [] in
  let w := World ∅ ∅ [Line (lit "Q"); Line (lit "postgres")] [] [] [] in
  let res := generate_docker_compose api (lit "sk-1") Static true w in
  fst res = Return () ∧ api_log (snd res) = [] ∧ files (snd res) = ∅.
Proof.
  intros api w res.
  destruct (X1_exit_word_ends_run api (lit "sk-1") Static true w (lit "Q")
              [Line (lit "postgres")])
    as (Hr & Hlog & Hfiles & _).
  - reflexivity.
  - apply (bool_decide_unpack _). by vm_compute.
  - split; [exact Hr|]. split; [exact Hlog | exact Hfiles].
Defined.

(** X2. Every request that [generate_docker_compose] makes is appended
    to the log with the key given and the model [gpt-4], with a limit of
    1500 or 2000 tokens; its messages begin with the system message built
    from the loaded reference texts and the greeting; each request
    carries the messages of the requests before it; and only the last
    request of a run can be a final one (lines 102 to 159). *)
Theorem X2_requests_carry_transcript (api : nat → request → response)
    (api_key : str) (reference_source : reference) (env_vars_in_file : bool)
    (w : world) :
  let res := generate_docker_compose api api_key reference_source
               env_vars_in_file w in
  ∃ env_vars_content sample_compose_content new,
    fst (load_documentation w)
    = Return (env_vars_content, sample_compose_content)
    ∧ api_log (snd res) = api_log w ++ new
    ∧ Forall (well_formed_request api_key
                [Message System
                   (system_prompt env_vars_content sample_compose_content);
                 Message Assistant initial_message]) new
    ∧ growing new
    ∧ final_last new.
Proof.
  intros res. unfold res.
  destruct (generate_docker_compose_loop_run api api_key reference_source
              env_vars_in_file w)
    as (e & s & w0 & ops & Hload & _ & _ & _ & _ & Hlog & _ & _ & Hrun).
  destruct (loop_run_requests _ _ _ _ _ _ Hrun)
    as (new & Hnew & Hwf & Hgrow & Hlast & _).
  exists e, s, new. rewrite Hload. cbn [api_log emit] in Hnew.
  rewrite Hnew, Hlog. by split_and!.
Qed.

(** X3. [generate_docker_compose] makes at most one more request than it
    reads lines from the terminal (one request for each line, and the
    final request). *)
Theorem X3_requests_bounded_by_lines (api : nat → request → response)
    (api_key : str) (reference_source : reference) (env_vars_in_file : bool)
    (w : world) :
  let res := generate_docker_compose api api_key reference_source
               env_vars_in_file w in
  length (api_log (snd res)) + length (stdin (snd res))
  ≤ length (api_log w) + length (stdin w) + 1.
Proof.
  intros res. unfold res.
  destruct (generate_docker_compose_loop_run api api_key reference_source
              env_vars_in_file w)
    as (e & s & w0 & ops & Hload & _ & _ & Hin & _ & Hlog & _ & _ & Hrun).
  destruct (loop_run_requests _ _ _ _ _ _ Hrun)
    as (new & Hnew & _ & _ & _ & Hlen).
  cbn [api_log stdin emit] in Hnew, Hlen.
  rewrite Hnew, Hlog, length_app. rewrite Hin in Hlen. lia.
Qed.

(** X4. When no reply of the service holds the sentinel phrase,
    [generate_docker_compose] writes no file: the files and the
    environment are as before, whatever the user types and however the
    run ends (lines 135 and 183 to 192). *)
Theorem X4_no_sentinel_no_files (api : nat → request → response)
    (api_key : str) (reference_source : reference) (env_vars_in_file : bool)
    (w : world) :
  let res := generate_docker_compose api api_key reference_source
               env_vars_in_file w in
  (∀ n req ai_response,
     api n req = Reply ai_response → contains sentinel ai_response = false) →
  files (snd res) = files w
  ∧ environ (snd res) = environ w
  ∧ ∃ ops, fs_log (snd res) = fs_log w ++ ops ∧ read_only ops.
Proof.
  intros res Hnever. unfold res.
  destruct (generate_docker_compose_loop_run api api_key reference_source
              env_vars_in_file w)
    as (e & s & w0 & ops & _ & Henv & Hfiles & _ & _ & _ & Hfs & Hro & Hrun).
  destruct (loop_run_writes _ _ _ _ _ _ Hrun) as [Henv' Hcases].
  cbn [environ files fs_log emit] in Henv', Hcases.
  destruct Hcases
    as [[Hfs' Hfiles'] | (n & req1 & a & _ & _ & H1 & Hs & _)].
  - rewrite Hfiles', Hfiles, Henv', Henv, Hfs', Hfs. eauto.
  - rewrite (Hnever _ _ _ H1) in Hs. discriminate Hs.
Qed.

Lemma X4_no_sentinel_witness :
  let api := λ (_ : nat) (_ : request),
    Reply (lit "Which database do you prefer?") in
  let w := World ∅ ∅ [Line (lit "hello"); Line (lit "postgres")] [] [] [] in
  let res := generate_docker_compose api (lit "sk-1") Static true w in
  files (snd res) = ∅ ∧ environ (snd res) = ∅.
Proof.
  intros api w res.
  destruct (X4_no_sentinel_no_files api (lit "sk-1") Static true w)
    as (Hfiles & Henv & _).
  - intros n req a [= <-]. by vm_compute.
  - split; [exact Hfiles | exact Henv].
Defined.

(** X5. [generate_docker_compose] changes no file but the two generated
    ones and never touches the environment: every other path holds what
    it held before, and every write in the trace of file operations that
    was not there before is to one of the two paths (lines 183 to 192). *)
Theorem X5_only_generated_files_change (api : nat → request → response)
    (api_key : str) (reference_source : reference) (env_vars_in_file : bool)
    (w : world) :
  let res := generate_docker_compose api api_key reference_source
               env_vars_in_file w in
  environ (snd res) = environ w
  ∧ (∀ path, path ≠ docker_compose_path → path ≠ env_path →
       files (snd res) !! path = files w !! path)
  ∧ (∀ path content,
       FsWrite path content ∈ fs_log (snd res) →
       FsWrite path content ∈ fs_log w
       ∨ path = docker_compose_path ∨ path = env_path).
Proof.
  intros res. unfold res.
  destruct (generate_docker_compose_loop_run api api_key reference_source
              env_vars_in_file w)
    as (e & s & w0 & ops & _ & Henv & Hfiles & _ & _ & _ & Hfs & Hro & Hrun).
  destruct (loop_run_writes _ _ _ _ _ _ Hrun) as [Henv' Hcases].
  cbn [environ files fs_log emit] in Henv', Hcases.
  split; [by rewrite Henv'|].
  destruct Hcases
    as [[Hfs' Hfiles']
       | (n & req1 & a & req2 & g & _ & _ & _ & _ & Hfs' & Hfiles')];
    rewrite Hfs', Hfiles', Hfs, Hfiles.
  - split; [done|]. intros path content [Hin|Hin]%elem_of_app; [by left|].
    by destruct (Hro path content).
  - split.
    + intros path Hdc Henvp. unfold saved.
      destruct (truthy _);
        rewrite ?(lookup_insert_ne _ env_path path) by done;
        by rewrite (lookup_insert_ne _ docker_compose_path path) by done.
    + intros path content [[Hin|Hin]%elem_of_app|Hin]%elem_of_app;
        [by left | by destruct (Hro path content) |].
      right. unfold writes_of in Hin.
      apply elem_of_cons in Hin as [[= -> _]|Hin]; [by left|].
      destruct (truthy _); [|by apply elem_of_nil in Hin].
      apply list_elem_of_singleton in Hin as [= -> _]. by right.
Qed.

Lemma finalize_end_of_input (generation_response : str) (w : world) :
  stdin w = [] → fst (finalize generation_response w) = Raise EOFError.
Proof.
  intros Hin. unfold finalize. destruct (extract generation_response) as [d e].
  unfold save. run. destruct (truthy e); run; by rewrite Hin.
Qed.

Lemma finalize_interrupt (generation_response : str) (w : world) :
  fst (finalize generation_response w) = Raise KeyboardInterrupt →
  ∃ rest, stdin w = CtrlC :: rest.
Proof.
  unfold finalize. destruct (extract generation_response) as [d e].
  unfold save. run.
  destruct (truthy e); run;
    destruct (stdin w) as [|[show_files|] rest] eqn:Hstdin; run;
    try destruct (bool_decide _); run; try discriminate; eauto.
Qed.

(** How a run of the loop can end: by returning, at the end of the
    input, or interrupted from the keyboard or in a call. *)
Lemma loop_run_outcome (api : nat → request → response) (api_key : str)
    (messages : list message) (w : world) (r : outcome unit) (w' : world) :
  loop_run api api_key messages w r w' →
  r = Return ()
  ∨ (r = Raise EOFError ∧ stdin w' = [])
  ∨ (r = Raise KeyboardInterrupt
     ∧ (CtrlC ∈ stdin w ∨ ∃ n req, api n req = Interrupted)).
Proof.
  induction 1 as
    [ messages w Hin | messages w rest Hin | messages w u rest Hin Hex
    | messages w u rest msg Hin Hex H1 | messages w u rest Hin Hex H1
    | messages w u rest a r w' Hin Hex H1 Hs Hrun IH
    | messages w u rest a msg Hin Hex H1 Hs H2
    | messages w u rest a Hin Hex H1 Hs H2
    | messages w u rest a g r w' Hin Hex H1 Hs H2 Hfin ];
    rewrite ?Hin; eauto 7.
  - right; right. split; [done|]. left. apply elem_of_cons. by left.
  - destruct IH as [?|[?|[? [Hc|?]]]]; eauto.
    right; right. split; [done|]. left. apply elem_of_cons. by right.
  - pose proof (finalize_outcome g
      (log_api (final_request api_key (messages ++ [Message User u]) a)
         (answered api_key messages u a rest w))) as Hout.
    pose proof (finalize_interrupt g
      (log_api (final_request api_key (messages ++ [Message User u]) a)
         (answered api_key messages u a rest w))) as Hint.
    rewrite Hfin in Hout, Hint. cbn [fst] in Hout, Hint.
    destruct Hout as [-> | [-> | ->]]; cbn [handled is_Exception fst snd];
      eauto.
    destruct (Hint eq_refl) as [rest' Hrest]. cbn in Hrest. subst rest.
    right; right. split; [done|]. left.
    apply elem_of_cons; right. apply elem_of_cons; by left.
Qed.

(** X6. [generate_docker_compose] always ends, in one of three ways: it
    returns; or it raises [EOFError], and then the input is used up; or
    it raises [KeyboardInterrupt], and then the input held an interrupt
    or a call was interrupted. An error of the service never leaves it
    (lines 114 to 213). *)
Theorem X6_run_ends (api : nat → request → response)
    (api_key : str) (reference_source : reference) (env_vars_in_file : bool)
    (w : world) :
  let res := generate_docker_compose api api_key reference_source
               env_vars_in_file w in
  fst res = Return ()
  ∨ (fst res = Raise EOFError ∧ stdin (snd res) = [])
  ∨ (fst res = Raise KeyboardInterrupt
     ∧ (CtrlC ∈ stdin w ∨ ∃ n req, api n req = Interrupted)).
Proof.
  intros res. unfold res.
  destruct (generate_docker_compose_loop_run api api_key reference_source
              env_vars_in_file w)
    as (e & s & w0 & ops & _ & _ & _ & Hin & _ & _ & _ & _ & Hrun).
  apply loop_run_outcome in Hrun. cbn [stdin emit] in Hrun.
  by rewrite Hin in Hrun.
Qed.

(** X7. The question whether to show the files is asked inside the
    [try] of the loop, after the files were written. When the input
    ends there, the [EOFError] is caught like an error of the service:
    [generate_docker_compose] returns, the files extracted from the
    final reply are on the disk, and the last line printed is the error
    line of the end of input (lines 183 to 213). *)
Theorem X7_end_of_input_after_saving (api : nat → request → response)
    (api_key : str) (reference_source : reference) (env_vars_in_file : bool)
    (w : world) (user_input ai_response generation_response : str) :
  let res := generate_docker_compose api api_key reference_source
               env_vars_in_file w in
  stdin w = [Line user_input] →
  lower user_input ∉ [lit "exit"; lit "quit"; lit "q"] →
  (∀ req, api (length (api_log w)) req = Reply ai_response) →
  contains sentinel ai_response = true →
  (∀ req, api (S (length (api_log w))) req = Reply generation_response) →
  fst res = Return ()
  ∧ files (snd res)
    = saved (fst (extract generation_response))
        (snd (extract generation_response)) (files w)
  ∧ length (api_log (snd res)) = S (S (length (api_log w)))
  ∧ last (stdout (snd res)) = Some (lit "Error: EOF when reading a line").
Proof.
  intros res Hin Hex H1 Hs H2. unfold res.
  destruct (load_documentation_world w)
    as ([e s] & w0 & ops & Hload & _ & Hfiles & Hin0 & _ & Hlog & _ & _).
  unfold generate_docker_compose. run. rewrite Hload. run.
  unfold run_conversation. rewrite conversation_S.
  cbn [stdin emit]. rewrite Hin0, Hin. cbv zeta.
  rewrite bool_decide_eq_false_2 by exact Hex.
  set (messages1 := _ ++ [Message User user_input]).
  set (w1 := set_stdin [] _).
  set (w2 := log_api (final_request api_key messages1 ai_response)
               (emit (nl ++ lit "AI: " ++ ai_response)
                  (log_api (turn_request api_key messages1) w1))).
  assert (api_log w1 = api_log w) as Hlog1 by exact Hlog.
  pose proof (finalize_end_of_input generation_response w2 eq_refl) as Hr.
  pose proof (finalize_effects generation_response w2) as (_ & Hsaved & Hcalls).
  destruct (finalize generation_response w2) as [r w'] eqn:Hfin.
  cbn [fst snd] in Hr, Hsaved, Hcalls. subst r.
  rewrite (attempt_final_reply api api_key messages1 w1 ai_response
             generation_response (Raise EOFError) w').
  - cbn [is_Exception fst snd files api_log stdout emit].
    rewrite Hsaved, Hcalls. unfold w2.
    cbn [files api_log emit log_api set_stdin].
    change (files w1) with (files w0).
    rewrite Hfiles, Hlog1, !length_app, last_snoc. cbn [length].
    split_and!; [done | done | lia | done].
  - rewrite Hlog1. apply H1.
  - exact Hs.
  - rewrite Hlog1. apply H2.
  - exact Hfin.
Qed.

Lemma X7_end_of_input_witness :
  let api := λ (n : nat) (_ : request),
    match n with
    | 0 => Reply (lit "I'll now generate your Docker Compose file.")
    | _ => Reply (lit "no blocks")
    end in
  let w := World ∅ ∅ [Line (lit "sqlite, nothing else")] [] [] [] in
  let res := generate_docker_compose api (lit "sk-1") Static true w in
  fst res = Return ()
  ∧ last (stdout (snd res)) = Some (lit "Error: EOF when reading a line").
Proof.
  intros api w res.
  destruct (X7_end_of_input_after_saving api (lit "sk-1") Static true w
              (lit "sqlite, nothing else")
              (lit "I'll now generate your Docker Compose file.")
              (lit "no blocks"))
    as (Hr & _ & _ & Hlast).
  - reflexivity.
  - apply (bool_decide_unpack _). by vm_compute.
  - reflexivity.
  - by vm_compute.
  - reflexivity.
  - split; [exact Hr | exact Hlast].
Defined.

(** * Further properties of the credential resolver *)

Lemma load_env_vars_no_key (w : world) :
  no_key_in_dotenv w →
  ∃ w', load_env_vars w = (Return None, w')
        ∧ environ w' = environ w ∧ files w' = files w
        ∧ stdin w' = stdin w ∧ stdout w' = stdout w
        ∧ api_log w' = api_log w.
Proof.
  intros [Hfile | (content & Hfile & Hlines)].
  - unfold load_env_vars. fold env_file. run.
    rewrite Hfile, bool_decide_is_None. run. by eexists.
  - rewrite (load_env_vars_exists w content Hfile).
    rewrite <- (app_nil_r (lines content)).
    rewrite load_env_lines_before by done. by eexists.
Qed.

(** X8. A key in the environment that is not empty is the key: the
    resolver returns it and does nothing else; it looks at no file,
    prints nothing and reads nothing (line 35). *)
Theorem X8_environment_key_first (w : world) (api_key : str) :
  environ w !! OPENAI_API_KEY = Some api_key →
  api_key ≠ [] →
  get_openai_key w = (Return api_key, w).
Proof.
  intros Henv Hne. unfold get_openai_key. run. rewrite Henv.
  destruct api_key as [|c api_key]; [done|]. by run.
Qed.

Lemma X8_environment_key_witness :
  let w := World {[OPENAI_API_KEY := lit "sk-env"]}
             {[lit ".env" := lit "OPENAI_API_KEY=sk-file"]}
             [Line (lit "sk-typed")] [] [] [] in
  get_openai_key w = (Return (lit "sk-env"), w).
Proof.
  intros w. apply (X8_environment_key_first w (lit "sk-env")).
  - reflexivity.
  - discriminate.
Defined.

(** X9. When the dotenv file is missing or has no line of the key,
    [load_env_vars] returns [None] and leaves the environment, the
    files, the input and the output as they were (lines 18 to 31). *)
Theorem X9_dotenv_without_key (w : world) :
  no_key_in_dotenv w →
  fst (load_env_vars w) = Return None
  ∧ environ (snd (load_env_vars w)) = environ w
  ∧ files (snd (load_env_vars w)) = files w
  ∧ stdin (snd (load_env_vars w)) = stdin w
  ∧ stdout (snd (load_env_vars w)) = stdout w.
Proof.
  intros Hno.
  destruct (load_env_vars_no_key w Hno) as (w' & -> & ? & ? & ? & ? & _).
  done.
Qed.

Lemma X9_dotenv_without_key_witness :
  let w := World ∅
             {[lit ".env" := text ["# keys"; "   "; "OTHER_KEY=1"; "MODEL=gpt-4"]]}
             [] [] [] [] in
  fst (load_env_vars w) = Return None
  ∧ environ (snd (load_env_vars w)) = ∅.
Proof.
  intros w. destruct (X9_dotenv_without_key w) as (Hr & Henv & _).
  - right. eexists. split; [reflexivity|].
    repeat apply Forall_cons_2; [| | | |apply Forall_nil_2].
    + left. right. reflexivity.
    + left. left. reflexivity.
    + right. exists (lit "OTHER_KEY"), (lit "1").
      split; [reflexivity|]. split; [|discriminate].
      apply (bool_decide_unpack _). by vm_compute.
    + right. exists (lit "MODEL"), (lit "gpt-4").
      split; [reflexivity|]. split; [|discriminate].
      apply (bool_decide_unpack _). by vm_compute.
  - split; [exact Hr | exact Henv].
Defined.

(** X10. With no usable key in the environment and none in the dotenv
    file, the resolver prints its notice and asks.  It returns the line
    typed without its surrounding white space, provided that this text
    holds no NUL character; the same text becomes the value of the key
    in the environment, also when it is empty.  A text with a NUL
    character cannot be stored: the resolver raises ValueError (embedded
    null byte) and the environment is left as it was (lines 37 to
    42). *)
Theorem X10_key_typed_at_prompt (w : world) (typed : str)
    (rest : list event) :
  let res := get_openai_key w in
  falsy (environ w !! OPENAI_API_KEY) = true →
  no_key_in_dotenv w →
  stdin w = Line typed :: rest →
  files (snd res) = files w
  ∧ stdin (snd res) = rest
  ∧ stdout (snd res)
    = stdout w
      ++ [lit "OpenAI API key not found in environment or .env file.";
          lit "Please enter your OpenAI API key: "]
  ∧ (chr 0 ∉ strip typed →
     fst res = Return (strip typed)
     ∧ environ (snd res) = <[OPENAI_API_KEY := strip typed]> (environ w))
  ∧ (chr 0 ∈ strip typed →
     fst res = Raise (ValueError (lit "embedded null byte"))
     ∧ environ (snd res) = environ w).
Proof.
  intros res Hfalsy Hno Hin. unfold res, get_openai_key. run.
  rewrite Hfalsy.
  destruct (load_env_vars_no_key w Hno)
    as (w' & -> & Henv & Hfiles & Hin' & Hout & _).
  cbn [falsy]. run. rewrite Hin', Hin. run. rewrite environ_set_key.
  case_bool_decide as Hnul; run;
    rewrite ?Henv, Hfiles, Hout, <- app_assoc; by split_and!.
Qed.

Lemma X10_key_typed_witness :
  let w := World {[OPENAI_API_KEY := []]} ∅ [Line (lit "  sk-typed ")]
             [] [] [] in
  let w0 := World ∅ ∅ [Line (lit "sk" ++ [chr 0])] [] [] [] in
  (fst (get_openai_key w) = Return (lit "sk-typed")
   ∧ environ (snd (get_openai_key w)) !! OPENAI_API_KEY
     = Some (lit "sk-typed"))
  ∧ (fst (get_openai_key w0) = Raise (ValueError (lit "embedded null byte"))
     ∧ environ (snd (get_openai_key w0)) = ∅).
Proof.
  intros w w0. split.
  - destruct (X10_key_typed_at_prompt w (lit "  sk-typed ") [])
      as (_ & _ & _ & H & _).
    + reflexivity.
    + left. reflexivity.
    + reflexivity.
    + destruct H as [Hr Henv].
      * apply (bool_decide_unpack _). by vm_compute.
      * split; [exact Hr|]. rewrite Henv. apply lookup_insert_eq.
  - destruct (X10_key_typed_at_prompt w0 (lit "sk" ++ [chr 0]) [])
      as (_ & _ & _ & _ & H).
    + reflexivity.
    + left. reflexivity.
    + reflexivity.
    + apply H. apply (bool_decide_unpack _). by vm_compute.
Defined.

(** * Further properties of the extraction *)

Lemma lstrip_by_suffix (f : ascii → bool) (s : str) :
  ∃ a, s = a ++ lstrip_by f s.
Proof.
  induction s as [|c s [a IH]]; [by exists []|]. cbn [lstrip_by].
  destruct (f c); [|by exists []]. exists (c :: a). cbn. by rewrite <- IH.
Qed.

Lemma strip_by_infix (f : ascii → bool) (s : str) :
  ∃ a b, s = a ++ strip_by f s ++ b.
Proof.
  unfold strip_by, rstrip_by.
  destruct (lstrip_by_suffix f s) as [a Ha].
  destruct (lstrip_by_suffix f (reverse (lstrip_by f s))) as [b Hb].
  exists a, (reverse b).
  rewrite <- reverse_app, <- Hb, reverse_involutive. exact Ha.
Qed.

Lemma head_lstrip_by (f : ascii → bool) (s : str) (c : ascii) :
  head (lstrip_by f s) = Some c → f c = false.
Proof.
  induction s as [|x s IH]; [done|]. cbn [lstrip_by].
  destruct (f x) eqn:Hx; [done|]. by intros [= <-].
Qed.

Lemma last_strip_by (f : ascii → bool) (s : str) (c : ascii) :
  last (strip_by f s) = Some c → f c = false.
Proof.
  unfold strip_by, rstrip_by. rewrite last_reverse. apply head_lstrip_by.
Qed.

Lemma head_strip_by (f : ascii → bool) (s : str) (c : ascii) :
  head (strip_by f s) = Some c → f c = false.
Proof.
  unfold strip_by.
  destruct (lstrip_by f s) as [|x t] eqn:Hl; [done|].
  assert (f x = false) as Hx by (apply (head_lstrip_by f s); by rewrite Hl).
  rewrite rstrip_by_cons by done. by intros [= <-].
Qed.

Lemma occurs_at_infix (sep a m b : str) (i : nat) :
  occurs_at sep m i → occurs_at sep (a ++ m ++ b) (length a + i).
Proof.
  intros (x & y & -> & <-). exists (a ++ x), (y ++ b).
  by rewrite length_app, <- !app_assoc.
Qed.

Lemma contains_strip_by (f : ascii → bool) (sep s : str) :
  contains sep s = false → contains sep (strip_by f s) = false.
Proof.
  rewrite !contains_false, !find_None. intros Hs i Hi.
  destruct (strip_by_infix f s) as (a & b & Hab).
  apply (Hs (length a + i)). rewrite Hab at 1. by apply occurs_at_infix.
Qed.

Lemma contains_up_to (sep s : str) :
  sep ≠ [] → contains sep (up_to sep s) = false.
Proof.
  intros Hsep. assert (0 < length sep) by (destruct sep; [done | cbn; lia]).
  rewrite contains_false, find_None. intros j Hj. unfold up_to in Hj.
  destruct (find sep s) as [i|] eqn:Hfind.
  - apply find_Some in Hfind as [Hi Hmin].
    pose proof (occurs_at_length _ _ _ Hj) as Hlen.
    pose proof (occurs_at_length _ _ _ Hi) as Hlen'.
    rewrite length_take in Hlen.
    destruct (decide (j < i)) as [Hlt|Hge].
    + apply (Hmin j Hlt). by eapply occurs_at_take.
    + lia.
  - by apply (proj1 (find_None sep s) Hfind j).
Qed.

Lemma clean_fenced_text (marker response : str) :
  clean (fenced_text marker response).
Proof.
  unfold fenced_text. destruct (find marker response) as [i|].
  - split_and!.
    + apply head_strip_by.
    + apply last_strip_by.
    + by apply contains_strip_by, contains_up_to.
  - split_and!; [done | done | by vm_compute].
Qed.

(** X11. The two texts taken from a final reply are trimmed and hold no
    fence: neither begins or ends with white space, and three backticks
    occur in neither, whatever the reply is (lines 164 to 181). *)
Theorem X11_extracted_texts_clean (generation_response : str) :
  clean (fst (extract generation_response))
  ∧ clean (snd (extract generation_response)).
Proof.
  rewrite extract_fenced_text. cbn [fst snd]. split.
  - destruct (truthy _); apply clean_fenced_text.
  - apply clean_fenced_text.
Qed.

(** * Further properties of the prompt and of the reference loader *)

(** X12. The length of the system prompt is 858 characters of fixed text
    and markers, plus at most 4000 characters of the variable
    documentation and at most 2000 of the sample configuration: never
    more than 6858, however long the reference texts are (lines 81 to
    99). *)
Theorem X12_prompt_length (env_vars_content sample_compose_content : str) :
  length (system_prompt env_vars_content sample_compose_content)
  = 858 + length env_vars_content `min` 4000
    + length sample_compose_content `min` 2000
  ∧ length (system_prompt env_vars_content sample_compose_content)
    ≤ 858 + 4000 + 2000.
Proof.
  assert (length (system_prompt env_vars_content sample_compose_content)
          = 858 + length env_vars_content `min` 4000
            + length sample_compose_content `min` 2000) as Hlen.
  { unfold system_prompt. rewrite !length_app, !length_take.
    assert (length prompt_head = 774) as -> by (by vm_compute).
    assert (length prompt_middle = 53) as -> by (by vm_compute).
    assert (length truncation_marker = 15) as -> by (by vm_compute).
    cbn [length nl]. lia. }
  split; [exact Hlen | lia].
Qed.

(** X13. The reference loader never fails and never writes: it returns
    two texts, each empty or the content of the file of the static or of
    the fallback location, and leaves the environment, the files, the
    input and the output as they were; it only checks and reads files
    (lines 44 to 71). *)
Theorem X13_reference_loader_total (w : world) :
  ∃ env_vars_content sample_compose_content w',
    load_documentation w
    = (Return (env_vars_content, sample_compose_content), w')
    ∧ (env_vars_content = []
       ∨ files w !! static_env_vars_path = Some env_vars_content
       ∨ files w !! repo_env_vars_path = Some env_vars_content)
    ∧ (sample_compose_content = []
       ∨ files w !! static_sample_compose_path = Some sample_compose_content
       ∨ files w !! repo_sample_compose_path = Some sample_compose_content)
    ∧ environ w' = environ w ∧ files w' = files w ∧ stdin w' = stdin w
    ∧ stdout w' = stdout w ∧ api_log w' = api_log w
    ∧ ∃ ops, fs_log w' = fs_log w ++ ops ∧ read_only ops.
Proof.
  destruct (load_documentation_world w)
    as ([e s] & w' & ops & Hload & Henv & Hfiles & Hin & Hout & Hlog
        & Hfs & Hro).
  exists e, s, w'. split; [exact Hload|].
  split_and!; try done; [| |by exists ops]; revert Hload;
    destruct (files w !! static_env_vars_path) as [e1|] eqn:E1;
    destruct (files w !! static_sample_compose_path) as [s1|] eqn:E2;
    destruct (files w !! repo_env_vars_path) as [e2|] eqn:E3;
    destruct (files w !! repo_sample_compose_path) as [s2|] eqn:E4;
    unfold load_documentation;
    repeat progress
      (run; rewrite ?E1, ?E2, ?E3, ?E4, ?bool_decide_is_Some, ?bool_decide_is_None);
    intros [= <- <- _]; auto.
Qed.

(** * Further properties of the script *)

Lemma load_env_lines_world (ls : list str) (w : world) :
  files (snd (load_env_lines ls w)) = files w
  ∧ api_log (snd (load_env_lines ls w)) = api_log w
  ∧ fs_log (snd (load_env_lines ls w)) = fs_log w
  ∧ stdout (snd (load_env_lines ls w)) = stdout w.
Proof.
  induction ls as [|line rest IH]; cbn [load_env_lines]; [done|].
  destruct (_ && _); [|done].
  destruct (split_max 1 _ _) as [|key [|value [|? ?]]]; run; auto.
  destruct (decide _) as [->|]; run; [|done].
  rewrite environ_set_key. by destruct (bool_decide _).
Qed.

Lemma load_env_vars_world (w : world) :
  files (snd (load_env_vars w)) = files w
  ∧ api_log (snd (load_env_vars w)) = api_log w
  ∧ stdout (snd (load_env_vars w)) = stdout w
  ∧ ∃ ops, fs_log (snd (load_env_vars w)) = fs_log w ++ ops
           ∧ dotenv_only ops.
Proof.
  destruct (files w !! env_file) as [content|] eqn:Hfile.
  - rewrite (load_env_vars_exists w content Hfile).
    destruct (load_env_lines_world (lines content)
                (log_fs (FsRead env_file) (log_fs (FsExists env_file) w)))
      as (-> & -> & -> & ->).
    split_and!; [done..|]. exists [FsExists env_file; FsRead env_file].
    cbn [fs_log log_fs]. rewrite <- app_assoc. split; [done|].
    apply Forall_cons_2; [by left|]. apply Forall_cons_2; [by right|].
    apply Forall_nil_2.
  - unfold load_env_vars. fold env_file. run.
    rewrite Hfile, bool_decide_is_None. run.
    split_and!; [done..|]. exists [FsExists env_file].
    split; [done|]. apply Forall_cons_2; [by left | apply Forall_nil_2].
Qed.




(** X15. The [--reference] option changes nothing: from every world,
    the script and [generate_docker_compose] run the same for
    [repo-docs] as for [static].  In particular, with both files of the
    static location present, the requests made under [repo-docs] still
    begin with the system message built from the static texts (lines 44
    to 58, 73 to 78 and 235). *)
Theorem X15_reference_option_ignored (api : nat → request → response)
    (api_key : str) (env_vars_in_file : bool) (w : world) :
  generate_docker_compose api api_key RepoDocs env_vars_in_file w
  = generate_docker_compose api api_key Static env_vars_in_file w
  ∧ script api (Parsed (Args RepoDocs env_vars_in_file)) w
    = script api (Parsed (Args Static env_vars_in_file)) w
  ∧ ∀ env_vars_content sample_compose_content,
      files w !! static_env_vars_path = Some env_vars_content →
      files w !! static_sample_compose_path = Some sample_compose_content →
      ∃ new,
        api_log (snd (generate_docker_compose api api_key RepoDocs
                        env_vars_in_file w))
        = api_log w ++ new
        ∧ Forall (well_formed_request api_key
                    (seed env_vars_content sample_compose_content)) new.
Proof.
  split; [done|]. split; [done|].
  intros env_vars_content sample_compose_content E1 E2.
  destruct (generate_docker_compose_loop_run api api_key RepoDocs
              env_vars_in_file w)
    as (e & s & w0 & ops & Hload & _ & _ & _ & _ & Hlog & _ & _ & Hrun).
  assert (e = env_vars_content ∧ s = sample_compose_content) as [-> ->].
  { revert Hload. unfold load_documentation.
    repeat progress (run; rewrite ?E1, ?E2, ?bool_decide_is_Some).
    by intros [= <- <- _]. }
  destruct (loop_run_requests _ _ _ _ _ _ Hrun) as (new & Hnew & Hwf & _).
  exists new. cbn [api_log emit] in Hnew. by rewrite Hnew, Hlog.
Qed.

Lemma X15_reference_option_witness :
  let api := λ (_ : nat) (_ : request), Failure (lit "no network") in
  let w := World ∅
             {[static_env_vars_path := lit "WEBUI_URL";
               static_sample_compose_path := lit "services:"]}
             [Line (lit "hello")] [] [] [] in
  ∃ new,
    api_log (snd (generate_docker_compose api (lit "sk-1") RepoDocs false w))
    = new
    ∧ Forall (well_formed_request (lit "sk-1")
                (seed (lit "WEBUI_URL") (lit "services:"))) new.
Proof.
  intros api w.
  destruct (X15_reference_option_ignored api (lit "sk-1") false w)
    as (_ & _ & H).
  destruct (H (lit "WEBUI_URL") (lit "services:")) as (new & Hlog & Hwf).
  - reflexivity.
  - reflexivity.
  - exists new. split; [exact Hlog | exact Hwf].
Defined.

(** X16. An interrupt from the keyboard during a call is not an error
    of the loop: [generate_docker_compose] raises [KeyboardInterrupt]
    with the request logged, prints nothing after the question, and
    writes no file (lines 123 to 128 and 211). *)
Theorem X16_interrupted_call_not_caught (api : nat → request → response)
    (api_key : str) (reference_source : reference) (env_vars_in_file : bool)
    (w : world) (user_input : str) (rest : list event) :
  let res := generate_docker_compose api api_key reference_source
               env_vars_in_file w in
  stdin w = Line user_input :: rest →
  lower user_input ∉ [lit "exit"; lit "quit"; lit "q"] →
  (∀ req, api (length (api_log w)) req = Interrupted) →
  fst res = Raise KeyboardInterrupt
  ∧ length (api_log (snd res)) = S (length (api_log w))
  ∧ files (snd res) = files w
  ∧ stdout (snd res)
    = stdout w ++ [lit "AI: " ++ initial_message; nl ++ lit "You: "].
Proof.
  intros res Hin Hex H1. unfold res.
  destruct (load_documentation_world w)
    as ([e s] & w0 & ops & Hload & _ & Hfiles & Hin0 & Hout & Hlog & _ & _).
  unfold generate_docker_compose. run. rewrite Hload. run.
  unfold run_conversation. rewrite conversation_S.
  cbn [stdin emit]. rewrite Hin0, Hin. cbv zeta.
  rewrite bool_decide_eq_false_2 by exact Hex.
  set (messages1 := _ ++ [Message User user_input]).
  set (w1 := set_stdin rest _).
  pose proof (attempt_cases api api_key messages1 w1) as Hcases.
  cbv zeta in Hcases.
  assert (api_log w1 = api_log w) as Hlog1 by exact Hlog.
  rewrite Hlog1, H1 in Hcases. rewrite Hcases.
  cbn [fst snd api_log files stdout log_api]. unfold w1.
  cbn [api_log files stdout emit set_stdin].
  rewrite Hlog, Hfiles, Hout, length_app, <- app_assoc. cbn [length].
  split_and!; [done | lia | done | done].
Qed.

Lemma X16_interrupted_call_witness :
  let api := λ (_ : nat) (_ : request), Interrupted in
  let w := World ∅ ∅ [Line (lit "hello")] [] [] [] in
  let res := generate_docker_compose api (lit "sk-1") Static true w in
  fst res = Raise KeyboardInterrupt ∧ files (snd res) = ∅.
Proof.
  intros api w res.
  destruct (X16_interrupted_call_not_caught api (lit "sk-1") Static true w
              (lit "hello") [])
    as (Hr & _ & Hfiles & _).
  - reflexivity.
  - apply (bool_decide_unpack _). by vm_compute.
  - reflexivity.
  - split; [exact Hr | exact Hfiles].
Defined.

(** * The lines of a file *)

Lemma concat_lines_from (cur s : str) :
  concat (lines_from cur s) = reverse cur ++ s.
Proof.
  revert cur. induction s as [|c s IH]; intros cur; cbn [lines_from].
  - destruct cur; [done|]. cbn [concat]. by rewrite !app_nil_r.
  - destruct (decide (c = chr 10)) as [->|Hc].
    + cbn [concat]. rewrite IH, reverse_cons, <- app_assoc. done.
    + rewrite IH, reverse_cons, <- app_assoc. done.
Qed.

Lemma lines_from_shape (cur s : str) :
  chr 10 ∉ cur →
  Forall (λ line, line ≠ [] ∧ ∀ a b, line = a ++ chr 10 :: b → b = [])
    (lines_from cur s).
Proof.
  revert cur. induction s as [|c s IH]; intros cur Hcur; cbn [lines_from].
  - destruct cur as [|x cur]; [constructor|].
    apply Forall_cons_2; [|constructor]. split.
    + intros Hnil%(f_equal length). rewrite length_reverse in Hnil.
      discriminate Hnil.
    + intros a b Hab. destruct Hcur. apply elem_of_reverse.
      rewrite Hab. apply elem_of_app. right. apply elem_of_cons. by left.
  - destruct (decide (c = chr 10)) as [->|Hc].
    + apply Forall_cons_2; [|apply IH; by apply not_elem_of_nil]. split.
      * rewrite reverse_cons. by destruct (reverse cur).
      * intros a b Hab. rewrite reverse_cons in Hab.
        destruct b as [|x b _] using rev_ind; [done|].
        rewrite app_comm_cons, app_assoc in Hab.
        apply app_inj_tail in Hab as [Hab _].
        destruct Hcur. apply elem_of_reverse. rewrite Hab.
        apply elem_of_app. right. apply elem_of_cons. by left.
    + apply IH. intros [?|?]%elem_of_cons; [congruence|done].
Qed.

(** X17. The loop over the dotenv file sees every character of the file
    once and in order: the lines concatenate to the content; no line is
    empty; and a newline occurs in a line only as its last character
    (lines 22 and 23). *)
Theorem X17_lines_partition_content (content : str) :
  concat (lines content) = content
  ∧ Forall (λ line, line ≠ [] ∧ ∀ a b, line = a ++ chr 10 :: b → b = [])
      (lines content).
Proof.
  split.
  - unfold lines. by rewrite concat_lines_from.
  - apply lines_from_shape, not_elem_of_nil.
Qed.

(** * The key of the dotenv file in the resolver *)

Lemma load_env_lines_Some (ls : list str) (w : world) (value : str) :
  fst (load_env_lines ls w) = Return (Some value) →
  environ (snd (load_env_lines ls w))
  = <[OPENAI_API_KEY := value]> (environ w)
  ∧ stdin (snd (load_env_lines ls w)) = stdin w.
Proof.
  induction ls as [|line rest IH]; cbn [load_env_lines]; [done|].
  destruct (_ && _); [|done].
  destruct (split_max 1 _ _) as [|key [|v [|? ?]]]; run; try done.
  destruct (decide _) as [->|]; run; [|done].
  rewrite environ_set_key. destruct (bool_decide _); run; [done|].
  by intros [= <-].
Qed.

Lemma load_env_vars_Some (w : world) (value : str) :
  fst (load_env_vars w) = Return (Some value) →
  environ (snd (load_env_vars w)) = <[OPENAI_API_KEY := value]> (environ w)
  ∧ stdin (snd (load_env_vars w)) = stdin w.
Proof.
  destruct (files w !! env_file) as [content|] eqn:Hfile.
  - rewrite (load_env_vars_exists w content Hfile).
    apply (load_env_lines_Some _
             (log_fs (FsRead env_file) (log_fs (FsExists env_file) w))).
  - unfold load_env_vars. fold env_file. run.
    rewrite Hfile, bool_decide_is_None. run. done.
Qed.

(** X18. With no usable key in the environment, a key of the dotenv
    file that is not empty is returned without a question: nothing is
    printed, nothing is read from the terminal, and the environment
    holds the key afterwards (lines 35 to 42). *)
Theorem X18_dotenv_key_without_question (w : world) (value : str) :
  let res := get_openai_key w in
  falsy (environ w !! OPENAI_API_KEY) = true →
  fst (load_env_vars w) = Return (Some value) →
  value ≠ [] →
  fst res = Return value
  ∧ environ (snd res) = <[OPENAI_API_KEY := value]> (environ w)
  ∧ stdin (snd res) = stdin w
  ∧ stdout (snd res) = stdout w.
Proof.
  intros res Hfalsy Hload Hne. unfold res, get_openai_key. run.
  rewrite Hfalsy.
  destruct (load_env_vars_Some w value Hload) as [Henv Hin].
  destruct (load_env_vars_world w) as (_ & _ & Hout & _).
  destruct (load_env_vars w) as [r w1]. cbn [fst snd] in *. subst r.
  destruct value as [|c value]; [done|]. by run.
Qed.

Lemma X18_dotenv_key_witness :
  let w := World ∅ {[lit ".env" := lit "OPENAI_API_KEY=sk-file"]}
             [Line (lit "sk-typed")] [] [] [] in
  fst (get_openai_key w) = Return (lit "sk-file")
  ∧ stdin (snd (get_openai_key w)) = [Line (lit "sk-typed")].
Proof.
  intros w.
  destruct (X18_dotenv_key_without_question w (lit "sk-file"))
    as (Hr & _ & Hin & _).
  - reflexivity.
  - reflexivity.
  - discriminate.
  - split; [exact Hr | exact Hin].
Defined.

(** X19. A key of the dotenv file whose value is empty once the quotes
    are stripped does not count: the resolver prints its notice and
    asks.  The line typed, trimmed, is returned and replaces the empty
    value in the environment, provided that it holds no NUL character;
    with a NUL character it cannot be stored, and the resolver raises
    ValueError (embedded null byte), leaving the empty value in the
    environment (lines 28 to 30 and 37 to 40). *)
Theorem X19_empty_dotenv_key_asks (w : world) (typed : str)
    (rest : list event) :
  let res := get_openai_key w in
  falsy (environ w !! OPENAI_API_KEY) = true →
  fst (load_env_vars w) = Return (Some []) →
  stdin w = Line typed :: rest →
  stdin (snd res) = rest
  ∧ stdout (snd res)
    = stdout w
      ++ [lit "OpenAI API key not found in environment or .env file.";
          lit "Please enter your OpenAI API key: "]
  ∧ (chr 0 ∉ strip typed →
     fst res = Return (strip typed)
     ∧ environ (snd res) !! OPENAI_API_KEY = Some (strip typed))
  ∧ (chr 0 ∈ strip typed →
     fst res = Raise (ValueError (lit "embedded null byte"))
     ∧ environ (snd res) !! OPENAI_API_KEY = Some []).
Proof.
  intros res Hfalsy Hload Hin. unfold res, get_openai_key. run.
  rewrite Hfalsy.
  destruct (load_env_vars_Some w [] Hload) as [Henv Hin'].
  destruct (load_env_vars_world w) as (_ & _ & Hout & _).
  destruct (load_env_vars w) as [r w1]. cbn [fst snd] in *. subst r.
  cbn [falsy truthy negb]. run. rewrite Hin', Hin. run.
  rewrite environ_set_key.
  case_bool_decide as Hnul; run;
    rewrite ?Henv, Hout, <- app_assoc, ?lookup_insert_eq; by split_and!.
Qed.

Lemma X19_empty_dotenv_key_witness :
  let w := World ∅ {[lit ".env" := lit "OPENAI_API_KEY=''"]}
             [Line (lit "sk-typed")] [] [] [] in
  let w0 := World ∅ {[lit ".env" := lit "OPENAI_API_KEY=''"]}
              [Line (lit "sk" ++ [chr 0])] [] [] [] in
  (fst (get_openai_key w) = Return (lit "sk-typed")
   ∧ environ (snd (get_openai_key w)) !! OPENAI_API_KEY
     = Some (lit "sk-typed"))
  ∧ (fst (get_openai_key w0) = Raise (ValueError (lit "embedded null byte"))
     ∧ environ (snd (get_openai_key w0)) !! OPENAI_API_KEY = Some []).
Proof.
  intros w w0. split.
  - destruct (X19_empty_dotenv_key_asks w (lit "sk-typed") [])
      as (_ & _ & H & _).
    + reflexivity.
    + reflexivity.
    + reflexivity.
    + apply H. apply (bool_decide_unpack _). by vm_compute.
  - destruct (X19_empty_dotenv_key_asks w0 (lit "sk" ++ [chr 0]) [])
      as (_ & _ & _ & H).
    + reflexivity.
    + reflexivity.
    + reflexivity.
    + apply H. apply (bool_decide_unpack _). by vm_compute.
Defined.

(** * The run that generates the files *)

Lemma finalize_answered (generation_response : str) (w : world)
    (show_files : str) (rest : list event) :
  let docker_compose_content := fst (extract generation_response) in
  let env_content := snd (extract generation_response) in
  let res := finalize generation_response w in
  stdin w = Line show_files :: rest →
  fst res = Return ()
  ∧ stdin (snd res) = rest
  ∧ (lower show_files ∈ [lit "yes"; lit "y"] →
     ∃ out, stdout (snd res)
            = stdout w ++ out
              ++ [nl ++ lit "--- Docker Compose File ---";
                  docker_compose_content]
              ++ (if truthy env_content
                  then [nl ++ lit "--- Environment Variables ---";
                        env_content]
                  else []))
  ∧ (lower show_files ∉ [lit "yes"; lit "y"] →
     last (stdout (snd res))
     = Some (nl ++ lit "Would you like to see the generated files? (yes/no): ")).
Proof.
  intros d e res Hin. unfold res, d, e, finalize.
  destruct (extract generation_response) as [d' e']. cbn [fst snd].
  unfold save. run.
  destruct (truthy e'); run; rewrite Hin; run;
    case_bool_decide as Hyes; run;
    (split_and!; [done | done | intros Hyes' | intros Hyes']); try done.
  - eexists [_; _; _; _; _]. by rewrite <- !app_assoc.
  - by rewrite last_snoc.
  - eexists [_; _; _; _]. by rewrite <- !app_assoc.
  - by rewrite last_snoc.
Qed.

(** X20. Answering yes or y, in any case of letters, to the last
    question shows the texts that were written: the configuration, and
    the environment text when it is not empty, are the last lines
    printed, under their headings. Any other answer shows nothing: the
    question stays the last line printed. In both cases the step
    returns and has consumed the answer (lines 199 to 207). *)
Theorem X20_files_shown_on_yes (generation_response : str) (w : world)
    (show_files : str) (rest : list event) :
  let docker_compose_content := fst (extract generation_response) in
  let env_content := snd (extract generation_response) in
  let res := finalize generation_response w in
  stdin w = Line show_files :: rest →
  fst res = Return ()
  ∧ stdin (snd res) = rest
  ∧ files (snd res) = saved docker_compose_content env_content (files w)
  ∧ (lower show_files ∈ [lit "yes"; lit "y"] →
     ∃ out, stdout (snd res)
            = stdout w ++ out
              ++ [nl ++ lit "--- Docker Compose File ---";
                  docker_compose_content]
              ++ (if truthy env_content
                  then [nl ++ lit "--- Environment Variables ---";
                        env_content]
                  else []))
  ∧ (lower show_files ∉ [lit "yes"; lit "y"] →
     last (stdout (snd res))
     = Some (nl ++ lit "Would you like to see the generated files? (yes/no): ")).
Proof.
  intros d e res Hin.
  destruct (finalize_answered generation_response w show_files rest Hin)
    as (Hr & Hrest & Hyes & Hno).
  destruct (finalize_effects generation_response w) as (_ & Hfiles & _).
  by split_and!.
Qed.

Lemma X20_files_shown_witness :
  let w := World ∅ ∅ [Line (lit "YES")] [] [] [] in
  let res := finalize (lit "no blocks") w in
  fst res = Return () ∧ stdin (snd res) = [].
Proof.
  intros w res.
  destruct (X20_files_shown_on_yes (lit "no blocks") w (lit "YES") [])
    as (Hr & Hrest & _).
  - reflexivity.
  - split; [exact Hr | exact Hrest].
Defined.

(** X21. The run that generates the files: when the reply to the first
    line holds the sentinel, [generate_docker_compose] makes exactly two
    requests, the first with the system message, the greeting and the
    line, the second with the reply and the final prompt added; it
    writes the texts extracted from the second reply, consumes the
    answer to the last question and returns (lines 102 to 209). *)
Theorem X21_sentinel_generates_files (api : nat → request → response)
    (api_key : str) (reference_source : reference) (env_vars_in_file : bool)
    (w : world) (user_input show_files ai_response generation_response : str)
    (rest : list event) :
  let res := generate_docker_compose api api_key reference_source
               env_vars_in_file w in
  stdin w = Line user_input :: Line show_files :: rest →
  lower user_input ∉ [lit "exit"; lit "quit"; lit "q"] →
  (∀ req, api (length (api_log w)) req = Reply ai_response) →
  contains sentinel ai_response = true →
  (∀ req, api (S (length (api_log w))) req = Reply generation_response) →
  fst res = Return ()
  ∧ stdin (snd res) = rest
  ∧ files (snd res)
    = saved (fst (extract generation_response))
        (snd (extract generation_response)) (files w)
  ∧ ∃ env_vars_content sample_compose_content,
      fst (load_documentation w)
      = Return (env_vars_content, sample_compose_content)
      ∧ api_log (snd res)
        = api_log w
          ++ [Request api_key (lit "gpt-4")
                (seed env_vars_content sample_compose_content
                 ++ [Message User user_input]) 1500;
              Request api_key (lit "gpt-4")
                (seed env_vars_content sample_compose_content
                 ++ [Message User user_input;
                     Message Assistant ai_response;
                     Message User final_prompt]) 2000].
Proof.
  intros res Hin Hex H1 Hs H2. unfold res.
  destruct (load_documentation_world w)
    as ([e s] & w0 & ops & Hload & _ & Hfiles & Hin0 & _ & Hlog & _ & _).
  unfold generate_docker_compose. run. rewrite Hload. run.
  unfold run_conversation. rewrite conversation_S.
  cbn [stdin emit]. rewrite Hin0, Hin. cbv zeta.
  rewrite bool_decide_eq_false_2 by exact Hex.
  set (messages1 := _ ++ [Message User user_input]).
  set (w1 := set_stdin (Line show_files :: rest) _).
  set (w2 := log_api (final_request api_key messages1 ai_response)
               (emit (nl ++ lit "AI: " ++ ai_response)
                  (log_api (turn_request api_key messages1) w1))).
  assert (api_log w1 = api_log w) as Hlog1 by exact Hlog.
  destruct (finalize_answered generation_response w2 show_files rest eq_refl)
    as (Hr & Hrest & _).
  pose proof (finalize_effects generation_response w2) as (_ & Hsaved & Hcalls).
  destruct (finalize generation_response w2) as [r w'] eqn:Hfin.
  cbn [fst snd] in Hr, Hrest, Hsaved, Hcalls. subst r.
  rewrite (attempt_final_reply api api_key messages1 w1 ai_response
             generation_response (Return ()) w').
  - cbn [fst snd]. rewrite Hsaved, Hcalls, Hrest. unfold w2.
    cbn [files api_log emit log_api set_stdin].
    change (files w1) with (files w0).
    rewrite Hfiles, Hlog1. split_and!; [done..|].
    exists e, s. split; [done|]. unfold turn_request, final_request, messages1.
    by rewrite <- !app_assoc.
  - rewrite Hlog1. apply H1.
  - exact Hs.
  - rewrite Hlog1. apply H2.
  - exact Hfin.
Qed.

Lemma X21_sentinel_generates_witness :
  let api := λ (n : nat) (_ : request),
    match n with
    | 0 => Reply (lit "I'll now generate your Docker Compose file.")
    | _ => Reply (lit "no blocks")
    end in
  let w := World ∅ ∅ [Line (lit "sqlite"); Line (lit "no")] [] [] [] in
  let res := generate_docker_compose api (lit "sk-1") Static true w in
  fst res = Return () ∧ stdin (snd res) = [].
Proof.
  intros api w res.
  destruct (X21_sentinel_generates_files api (lit "sk-1") Static true w
              (lit "sqlite") (lit "no")
              (lit "I'll now generate your Docker Compose file.")
              (lit "no blocks") [])
    as (Hr & Hrest & _).
  - reflexivity.
  - apply (bool_decide_unpack _). by vm_compute.
  - reflexivity.
  - by vm_compute.
  - reflexivity.
  - split; [exact Hr | exact Hrest].
Defined.

(** * The flag of the environment file *)




(** * The dotenv loader is partial *)




